(** * NLPurge: the e-mail field cleaner of [email_cleaner_fixed.py]

    A shallow embedding of [EmailCleaner] and [process_csv_file], of the
    sibling cleaner of [clean_email_content.py], and of the parts of
    Python's [str], [re] and [csv] they call, followed by the properties
    of the specification that were checked against them.

    Python strings are sequences of Unicode code points: a character is a
    code point in [N] and a string a list of them.  What the program takes
    from libraries that cannot be written out here (the Unicode character
    database, NFKC normalisation, BeautifulSoup's parser) is gathered in
    the class [Externals]; [reference] is an executable instance. *)

From Stdlib Require Import List NArith Bool String Ascii Lia PeanoNat.
Import ListNotations.

Set Implicit Arguments.

Local Open Scope bool_scope.
Local Open Scope N_scope.

(** ** Strings *)

Definition char := N.
Definition str := list char.

Definition ch (a : ascii) : char := N_of_ascii a.

(** [py "abc"] is the Python literal ['abc'] (ASCII literals only). *)
Definition py (s : string) : str := map ch (list_ascii_of_string s).

Definition NL : char := 10.
Definition CR : char := 13.
Definition SPC : char := 32.
Definition DQ : char := 34.
Definition SQ : char := 39.

Definition eqc (a b : char) : bool := N.eqb a b.

Definition between (lo hi c : char) : bool := N.leb lo c && N.leb c hi.

Definition is_ascii (c : char) : bool := N.ltb c 128.

Definition ascii_isdigit (c : char) : bool := between 48 57 c.

Definition ascii_isalpha (c : char) : bool := between 65 90 c || between 97 122 c.

Definition ascii_isalnum (c : char) : bool := ascii_isdigit c || ascii_isalpha c.

(** [str.isspace] on one character, which is also what [\s] accepts in a
    [str] pattern and what [str.strip()] removes. *)
Definition isspace (c : char) : bool :=
  between 9 13 c || between 28 32 c || eqc c 133 || eqc c 160 || eqc c 5760
  || between 8192 8202 c || eqc c 8232 || eqc c 8233 || eqc c 8239
  || eqc c 8287 || eqc c 12288.

(** ** What the program takes from its libraries *)

Class Externals := {
  (** [\d] in a [str] pattern: the Unicode decimal digits *)
  isdecimal : char -> bool;
  (** [str.isalnum] on one character; [\w] is this or an underscore *)
  isalnum : char -> bool;
  (** [unicodedata.normalize('NFKC', _)] *)
  nfkc : str -> str;
  (** [BeautifulSoup(_, 'html.parser').get_text()]; [None] when it raises *)
  soup_get_text : str -> option str;
  isdecimal_ascii : forall c, is_ascii c = true -> isdecimal c = ascii_isdigit c;
  isalnum_ascii : forall c, is_ascii c = true -> isalnum c = ascii_isalnum c;
  isdecimal_isalnum : forall c, isdecimal c = true -> isalnum c = true;
  nfkc_ascii : forall s, forallb is_ascii s = true -> nfkc s = s
}.

(** ** [str] methods *)

Fixpoint starts_with (p s : str) : bool :=
  match p, s with
  | [], _ => true
  | _ :: _, [] => false
  | x :: p', c :: s' => eqc x c && starts_with p' s'
  end.

(** [c in text] for a one-character [c] *)
Definition contains_char (c : char) (s : str) : bool := existsb (eqc c) s.

(** [sub in text] *)
Fixpoint contains (p s : str) : bool :=
  starts_with p s || match s with [] => false | _ :: s' => contains p s' end.

(** [text.replace(old, new)]: occurrences are taken left to right and do
    not overlap; [skip] counts the characters of an occurrence still to
    be dropped. *)
Fixpoint replace_go (old new s : str) (skip : nat) : str :=
  match s with
  | [] => []
  | c :: s' =>
      match skip with
      | S k => replace_go old new s' k
      | O => if starts_with old s
             then new ++ replace_go old new s' (List.length old - 1)%nat
             else c :: replace_go old new s' 0%nat
      end
  end.

Definition replace (old new s : str) : str :=
  match old with
  | [] => new ++ flat_map (fun c => c :: new) s
  | _ :: _ => replace_go old new s 0%nat
  end.

(** [text.split('\n')] *)
Fixpoint split_lines (s : str) : list str :=
  match s with
  | [] => [[]]
  | c :: s' =>
      if eqc c NL then [] :: split_lines s'
      else match split_lines s' with
           | l :: ls => (c :: l) :: ls
           | [] => [[c]]
           end
  end.

(** ['\n'.join(lines)] *)
Fixpoint join_lines (ls : list str) : str :=
  match ls with
  | [] => []
  | [l] => l
  | l :: ls' => l ++ NL :: join_lines ls'
  end.

Fixpoint lstrip (s : str) : str :=
  match s with
  | c :: s' => if isspace c then lstrip s' else s
  | [] => []
  end.

Definition rstrip (s : str) : str := rev (lstrip (rev s)).

(** [text.strip()] *)
Definition strip (s : str) : str := rstrip (lstrip s).

(** [not text] for a string *)
Definition is_empty (s : str) : bool := match s with [] => true | _ => false end.

(** ** The fragment of [re] the program uses

    Every quantifier of the program's patterns applies to one character
    position, and its only group alternates literal words, so a pattern
    is a sequence of nodes.  The matcher backtracks as [re] does:
    leftmost start, alternatives in order, greedy quantifiers longest
    first and lazy ones shortest first. *)

Module Re.

Inductive item :=
| Ch (c : char)            (* a character of a set *)
| Range (lo hi : char)     (* lo-hi *)
| Sp.                      (* \s inside a set *)

Inductive atom :=
| Lit (c : char)           (* a literal character *)
| Dot                      (* . *)
| Space                    (* \s *)
| Digit                    (* \d *)
| OneOf (items : list item)    (* [...] *)
| NoneOf (items : list item).  (* [^...] *)

Inductive node :=
| One (a : atom)
| Rep (a : atom) (lo : nat) (hi : option nat) (greedy : bool)  (* a{lo,hi} *)
| Bol                      (* ^ without MULTILINE *)
| WordB                    (* \b *)
| Alt (alts : list str).   (* (w1|w2|...) over literal words *)

Definition regex := list node.

Record flags := { ignorecase : bool; dotall : bool }.

Definition no_flags := {| ignorecase := false; dotall := false |}.
Definition IGNORECASE := {| ignorecase := true; dotall := false |}.
Definition DOTALL := {| ignorecase := false; dotall := true |}.
Definition DOTALL_IGNORECASE := {| ignorecase := true; dotall := true |}.

Definition Star a := Rep a 0%nat None true.          (* a* *)
Definition Plus a := Rep a 1%nat None true.          (* a+ *)
Definition Opt a := Rep a 0%nat (Some 1%nat) true.       (* a? *)
Definition LazyStar a := Rep a 0%nat None false.     (* a*? *)
Definition AtLeast n a := Rep a n None true.     (* a{n,} *)
Definition Exactly n a := Rep a n (Some n) true. (* a{n} *)

(** a literal word *)
Definition lits (s : string) : regex := map (fun c => One (Lit c)) (py s).

Definition lower_ascii (c : char) : char :=
  if between 65 90 c then c + 32 else c.

(** The lower-casing [re] applies to the subject character, as far as it
    can reach an ASCII letter: LATIN CAPITAL LETTER I WITH DOT ABOVE
    lowers to [i] and KELVIN SIGN to [k]. *)
Definition sre_lower (c : char) : char :=
  if eqc c 304 then 105 else if eqc c 8490 then 107 else lower_ascii c.

(** A literal [p] of a pattern against the character [c].  Under
    IGNORECASE [re] compares lower-cased characters and also accepts the
    characters sharing an upper case with the literal (dotless i for [i],
    long s for [s]).  All literals of the program's case-insensitive
    patterns are ASCII or caseless. *)
Definition lit_eq (ic : bool) (p c : char) : bool :=
  if ic then
    let lo := lower_ascii p in
    eqc (sre_lower c) lo || (eqc lo 105 && eqc c 305) || (eqc lo 115 && eqc c 383)
  else eqc c p.

Section Matcher.

Context {E : Externals}.
Variable fl : flags.

Definition item_has (it : item) (c : char) : bool :=
  match it with
  | Ch p => lit_eq (ignorecase fl) p c
  | Range lo hi => between lo hi c
  | Sp => isspace c
  end.

Definition accepts (a : atom) (c : char) : bool :=
  match a with
  | Lit p => lit_eq (ignorecase fl) p c
  | Dot => dotall fl || negb (eqc c NL)
  | Space => isspace c
  | Digit => isdecimal c
  | OneOf items => existsb (fun it => item_has it c) items
  | NoneOf items => negb (existsb (fun it => item_has it c) items)
  end.

(** [\w] *)
Definition isword (c : char) : bool := isalnum c || eqc c 95.

Definition isword_opt (o : option char) : bool :=
  match o with Some c => isword c | None => false end.

(** [\b] between the character before the position and the one at it *)
Definition at_boundary (prev : option char) (s : str) : bool :=
  xorb (isword_opt prev) (isword_opt (hd_error s)).

Definition orelse (x y : option nat) : option nat :=
  match x with Some _ => x | None => y end.

(** A quantified character position followed by the rest of the pattern
    [k].  The result is the number of characters matched. *)
Fixpoint rep (a : atom) (k : option char -> str -> option nat) (greedy : bool)
    (lo : nat) (hi : option nat) (prev : option char) (s : str) {struct s}
  : option nat :=
  let stop := match lo with O => k prev s | S _ => None end in
  match s with
  | [] => stop
  | c :: s' =>
      let room := match hi with Some O => false | _ => true end in
      if accepts a c && room then
        let take := option_map S
          (rep a k greedy (pred lo) (option_map pred hi) (Some c) s') in
        if greedy then orelse take stop else orelse stop take
      else stop
  end.

(** a literal word followed by [k] *)
Fixpoint word (p : str) (k : option char -> str -> option nat)
    (prev : option char) (s : str) : option nat :=
  match p with
  | [] => k prev s
  | x :: p' =>
      match s with
      | c :: s' =>
          if lit_eq (ignorecase fl) x c
          then option_map S (word p' k (Some c) s')
          else None
      | [] => None
      end
  end.

Fixpoint first_alt (alts : list str) (k : option char -> str -> option nat)
    (prev : option char) (s : str) : option nat :=
  match alts with
  | [] => None
  | p :: ps => orelse (word p k prev s) (first_alt ps k prev s)
  end.

(** [match_here r prev s]: the length of the match of [r] at the start of
    [s], where [prev] is the character before [s] in the whole text. *)
Fixpoint match_here (r : regex) (prev : option char) (s : str) : option nat :=
  match r with
  | [] => Some O
  | One a :: r' =>
      match s with
      | c :: s' =>
          if accepts a c then option_map S (match_here r' (Some c) s') else None
      | [] => None
      end
  | Rep a lo hi g :: r' => rep a (match_here r') g lo hi prev s
  | Bol :: r' =>
      match prev with None => match_here r' prev s | Some _ => None end
  | WordB :: r' =>
      if at_boundary prev s then match_here r' prev s else None
  | Alt alts :: r' => first_alt alts (match_here r') prev s
  end.

(** [re.search]: the offset and the length of the leftmost match *)
Fixpoint search_from (r : regex) (prev : option char) (s : str)
  : option (nat * nat) :=
  match match_here r prev s with
  | Some n => Some (O, n)
  | None =>
      match s with
      | [] => None
      | c :: s' =>
          match search_from r (Some c) s' with
          | Some (i, n) => Some (S i, n)
          | None => None
          end
      end
  end.

Definition search (r : regex) (s : str) : option (nat * nat) :=
  search_from r None s.

(** [re.sub] with a literal replacement: matches are taken left to right
    and do not overlap; [skip] counts the characters of the current match
    still to be dropped. *)
Fixpoint sub_from (r : regex) (repl : str) (prev : option char) (s : str)
    (skip : nat) : str :=
  match s with
  | [] =>
      match skip, match_here r prev [] with
      | O, Some _ => repl
      | _, _ => []
      end
  | c :: s' =>
      match skip with
      | S k => sub_from r repl (Some c) s' k
      | O =>
          match match_here r prev s with
          | Some (S n) => repl ++ sub_from r repl (Some c) s' n
          | Some O => repl ++ c :: sub_from r repl (Some c) s' 0%nat
          | None => c :: sub_from r repl (Some c) s' 0%nat
          end
      end
  end.

Definition sub (r : regex) (repl : str) (s : str) : str :=
  sub_from r repl None s 0%nat.

End Matcher.

End Re.

Import Re.

(** ** [EmailCleaner] *)

(** [self.signature_patterns], searched with [re.IGNORECASE] *)
Definition signature_patterns : list regex := [
  lits "--" ++ [Star Space; One (Lit NL)];     (* --\s*\n *)
  lits "Sent from my iPhone";
  lits "Sent from my Android";
  lits "Get Outlook for iOS";
  lits "Get Outlook for Android";
  lits "This email was sent from a notification-only address";
  lits "Please do not reply to this email";
  lits "To unsubscribe";
  lits "Click here to unsubscribe";
  lits "If you received this email in error";
  lits "This is an automated message";
  lits "Powered by";
  [One (Lit 169); One (Lit SPC); Exactly 4 Digit];   (* (c) \d{4}, the copyright sign *)
  lits "All rights reserved";
  lits "Confidentiality Notice";
  lits "This message is intended only for";
  lits "If you are not the intended recipient"
].

(** [self.html_entities], in insertion order *)
Definition html_entities : list (str * str) := [
  (py "&nbsp;", py " ");
  (py "&amp;", py "&");
  (py "&lt;", py "<");
  (py "&gt;", py ">");
  (py "&quot;", [DQ]);
  (py "&#39;", [SQ]);
  (py "&apos;", [SQ])
].

(** [for entity, replacement in self.html_entities.items():
       text = text.replace(entity, replacement)] *)
Definition decode_entities_manually (text : str) : str :=
  fold_left (fun t er => replace (fst er) (snd er) t) html_entities text.

(** <[^>]+> *)
Definition tag_pattern : regex :=
  [One (Lit (ch "<")); Plus (NoneOf [Ch (ch ">")]); One (Lit (ch ">"))].

(** <script[^>]*>.*?</script> *)
Definition script_pattern : regex :=
  lits "<script" ++ [Star (NoneOf [Ch (ch ">")]); One (Lit (ch ">")); LazyStar Dot]
  ++ lits "</script>".

(** <style[^>]*>.*?</style> *)
Definition style_pattern : regex :=
  lits "<style" ++ [Star (NoneOf [Ch (ch ">")]); One (Lit (ch ">")); LazyStar Dot]
  ++ lits "</style>".

(** /\*.*?\*/ *)
Definition css_comment_pattern : regex :=
  lits "/*" ++ [LazyStar Dot] ++ lits "*/".

(** the characters that end a URL: white space and the eleven characters
    of the negated set (angle brackets, double quote, braces, bar,
    backslash, caret, backquote, square brackets) *)
Definition url_stop : list item :=
  [Sp; Ch (ch "<"); Ch (ch ">"); Ch DQ; Ch (ch "{"); Ch (ch "}"); Ch (ch "|");
   Ch (ch "\"); Ch (ch "^"); Ch (ch "`"); Ch (ch "["); Ch (ch "]")].

(** https?://[^...]+ over the negated set above *)
Definition url_pattern : regex :=
  lits "http" ++ [Opt (Lit (ch "s"))] ++ lits "://" ++ [Plus (NoneOf url_stop)].

(** www\.[^...]+ over the same set *)
Definition www_pattern : regex :=
  lits "www." ++ [Plus (NoneOf url_stop)].

(** \b[A-Za-z0-9._%+-]+@[A-Za-z0-9.-]+\.[A-Z|a-z]{2,}\b *)
Definition email_pattern : regex :=
  [WordB;
   Plus (OneOf [Range (ch "A") (ch "Z"); Range (ch "a") (ch "z"); Range (ch "0") (ch "9");
             Ch (ch "."); Ch (ch "_"); Ch (ch "%"); Ch (ch "+"); Ch (ch "-")]);
   One (Lit (ch "@"));
   Plus (OneOf [Range (ch "A") (ch "Z"); Range (ch "a") (ch "z"); Range (ch "0") (ch "9");
             Ch (ch "."); Ch (ch "-")]);
   One (Lit (ch "."));
   AtLeast 2 (OneOf [Range (ch "A") (ch "Z"); Ch (ch "|"); Range (ch "a") (ch "z")]);
   WordB].

(** \b\d{3}[-.]?\d{3}[-.]?\d{4}\b *)
Definition phone_pattern : regex :=
  [WordB; Exactly 3 Digit; Opt (OneOf [Ch (ch "-"); Ch (ch ".")]);
   Exactly 3 Digit; Opt (OneOf [Ch (ch "-"); Ch (ch ".")]);
   Exactly 4 Digit; WordB].

(** \[link\].*?\[/link\] *)
Definition bracket_link_pattern : regex :=
  lits "[link]" ++ [LazyStar Dot] ++ lits "[/link]".

(** <a[^>]*>.*?</a> *)
Definition anchor_pattern : regex :=
  lits "<a" ++ [Star (NoneOf [Ch (ch ">")]); One (Lit (ch ">")); LazyStar Dot]
  ++ lits "</a>".

(** ^(RE|FWD|FW|FWD|RE:)\s*:?\s* *)
Definition subject_prefix_pattern : regex :=
  [Bol; Alt [py "RE"; py "FWD"; py "FW"; py "FWD"; py "RE:"];
   Star Space; Opt (Lit (ch ":")); Star Space].

(** <([^>]+)> ; group 1 is the match without its first and last character *)
Definition angle_address_pattern : regex :=
  [One (Lit (ch "<")); Plus (NoneOf [Ch (ch ">")]); One (Lit (ch ">"))].

Section Cleaner.

Context {E : Externals}.

Definition decode_html_entities (text : str) : str :=
  if contains_char (ch "<") text && contains_char (ch ">") text then
    match soup_get_text text with
    | Some extracted => extracted
    | None => decode_entities_manually text      (* except: manual decoding *)
    end
  else decode_entities_manually text.

Definition remove_html_tags (text : str) : str :=
  let text := sub no_flags tag_pattern (py " ") text in
  let text := sub DOTALL_IGNORECASE script_pattern [] text in
  let text := sub DOTALL_IGNORECASE style_pattern [] text in
  let text := sub DOTALL css_comment_pattern [] text in
  text.

Definition convert_links_to_text (text : str) : str :=
  let text := sub no_flags url_pattern (py "link") text in
  let text := sub no_flags www_pattern (py "link") text in
  let text := sub no_flags email_pattern (py "email") text in
  let text := sub no_flags phone_pattern (py "phone") text in
  let text := sub IGNORECASE bracket_link_pattern (py "link") text in
  let text := sub IGNORECASE anchor_pattern (py "link") text in
  text.

(** the inner loop of [remove_signatures]: does some pattern match the line? *)
Definition is_signature (line : str) : bool :=
  existsb (fun pattern =>
             match search IGNORECASE pattern line with
             | Some _ => true
             | None => false
             end)
          signature_patterns.

Definition remove_signatures (text : str) : str :=
  let lines := split_lines text in
  let cleaned_lines := filter (fun line => negb (is_signature line)) lines in
  join_lines cleaned_lines.

Definition normalize_whitespace (text : str) : str :=
  let text := sub no_flags [Plus (Lit SPC)] (py " ") text in                  (* ' +' *)
  let text := sub no_flags [One (Lit NL); Star Space; One (Lit NL)] [NL] text in  (* \n\s*\n *)
  let lines := map strip (split_lines text) in
  let lines := filter (fun line => negb (is_empty line)) lines in
  join_lines lines.

Definition clean_punctuation (text : str) : str :=
  let text := sub no_flags [AtLeast 2 (OneOf [Ch (ch "!")])] (py "!") text in   (* [!]{2,} *)
  let text := sub no_flags [AtLeast 2 (OneOf [Ch (ch "?")])] (py "?") text in   (* [?]{2,} *)
  let text := sub no_flags [AtLeast 2 (OneOf [Ch (ch ".")])] (py ".") text in   (* [.]{2,} *)
  let text := sub no_flags [AtLeast 2 (Lit (ch ","))] (py ",") text in       (* ,{2,} *)
  text.

(** The quote replacements are as this file has them: the first line
    replaces the ASCII double quote by itself, twice; on the second line
    the two runs of three single quotes delimit one string literal, so it
    is a single call, replacing the 15 characters between them (comma,
    space, a single quote inside double quotes, closing parenthesis,
    [.replace] and an opening parenthesis) by a single quote. *)
Definition normalize_unicode (text : str) : str :=
  let text := nfkc text in
  let text := replace [DQ] [DQ] (replace [DQ] [DQ] text) in
  let text := replace (py ", " ++ [DQ; SQ; DQ] ++ py ").replace(") [SQ] text in
  let text := replace [8211] (py "-") (replace [8212] (py "-") text) in
  text.

(** The seven calls of the [try] block of [clean_email_text].  A call
    either returns the new text or raises ([None]); the program's own
    stages always return. *)
Record stages := {
  run_decode : str -> option str;
  run_tags : str -> option str;
  run_links : str -> option str;
  run_signatures : str -> option str;
  run_whitespace : str -> option str;
  run_punctuation : str -> option str;
  run_unicode : str -> option str
}.

Definition own_stages : stages := {|
  run_decode := fun t => Some (decode_html_entities t);
  run_tags := fun t => Some (remove_html_tags t);
  run_links := fun t => Some (convert_links_to_text t);
  run_signatures := fun t => Some (remove_signatures t);
  run_whitespace := fun t => Some (normalize_whitespace t);
  run_punctuation := fun t => Some (clean_punctuation t);
  run_unicode := fun t => Some (normalize_unicode t)
|}.

(** [except Exception: return text.strip() if text else ''], where [text]
    is the variable as last assigned *)
Definition on_exception (text : str) : str :=
  if is_empty text then [] else strip text.

(** [text = stage(text)] inside the [try] block: when the call raises the
    assignment does not happen and the handler sees the old [text]. *)
Notation "'assign' x '<-' e 'from' old ; k" :=
  (match e old with Some x => k | None => on_exception old end)
  (at level 10, x name, e at level 9, old at level 0, k at level 200).

Definition clean_email_text_with (S : stages) (text : str) : str :=
  if is_empty text then [] else
  assign text1 <- (run_decode S) from text;
  assign text2 <- (run_tags S) from text1;
  assign text3 <- (run_links S) from text2;
  assign text4 <- (run_signatures S) from text3;
  assign text5 <- (run_whitespace S) from text4;
  assign text6 <- (run_punctuation S) from text5;
  assign text7 <- (run_unicode S) from text6;
  strip text7.

Definition clean_email_text (text : str) : str :=
  clean_email_text_with own_stages text.

Definition clean_subject (subject : str) : str :=
  if is_empty subject then py "No Subject" else
  let subject := sub IGNORECASE subject_prefix_pattern [] subject in
  let subject := clean_email_text subject in
  if is_empty subject then py "No Subject" else subject.

Definition clean_sender (sender : str) : str :=
  if is_empty sender then py "Unknown Sender" else
  match search no_flags angle_address_pattern sender with
  | Some (i, n) => firstn (n - 2) (skipn (S i) sender)     (* email_match.group(1) *)
  | None => if contains_char (ch "@") sender then sender else sender
  end.

End Cleaner.

(** ** The record processor *)

(** [csv.writer] with the default dialect: delimiter comma, quote
    character the double quote doubled inside a quoted field, line
    terminator CR LF. *)
Inductive quoting := QUOTE_MINIMAL | QUOTE_ALL.

(** what makes the writer quote a field under QUOTE_MINIMAL *)
Definition is_special (c : char) : bool :=
  eqc c (ch ",") || eqc c DQ || eqc c CR || eqc c NL.

Definition quoted (f : str) : str :=
  DQ :: flat_map (fun c => if eqc c DQ then [DQ; DQ] else [c]) f ++ [DQ].

(** a field as the writer puts it in the line; [None] is written as the
    empty string *)
Definition csv_field (q : quoting) (v : option str) : str :=
  let f := match v with Some t => t | None => [] end in
  match q with
  | QUOTE_ALL => quoted f
  | QUOTE_MINIMAL => if existsb is_special f then quoted f else f
  end.

Fixpoint join_fields (fs : list str) : str :=
  match fs with
  | [] => []
  | [f] => f
  | f :: fs' => f ++ ch "," :: join_fields fs'
  end.

(** the line [writer.writerow] writes for a row of two fields or more *)
Definition writerow (q : quoting) (fields : list (option str)) : str :=
  join_fields (map (csv_field q) fields) ++ [CR; NL].

Definition fieldnames : list (option str) :=
  [Some (py "subject"); Some (py "sender"); Some (py "body"); Some (py "date")].

(** A row as [csv.DictReader] yields it, seen through
    [row.get(column, '')]: a string, or [None] when the line is shorter
    than the header.  An absent column gives the empty string. *)
Record row := {
  subject : option str;
  sender : option str;
  body : option str;
  date : option str
}.

(** [None] and the empty string are both false for [not value], so a
    cleaner takes the same branch on them. *)
Definition text_of (v : option str) : str :=
  match v with Some t => t | None => [] end.

Record run := {
  written : list str;       (* the lines of the output file, header first *)
  processed : nat;
  skipped : nat;
  warnings : list nat       (* the row numbers reported as skipped *)
}.

Section Processor.

Context {E : Externals}.

(** the dictionary [cleaned_row] of [process_csv_file], in column order *)
Definition cleaned_row (r : row) : list (option str) :=
  [Some (clean_subject (text_of (subject r)));
   Some (clean_sender (text_of (sender r)));
   Some (clean_email_text (text_of (body r)));
   date r].

(** The loop of [process_csv_file].  [clean] builds the cleaned row and
    [emit] is [writer.writerow], which hands the file one complete line;
    either may raise ([None]), and the [except] clause of the loop body
    then counts the row as skipped and goes on. *)
Fixpoint process_rows (clean : row -> option (list (option str)))
    (emit : list (option str) -> option str)
    (rows : list row) (row_num : nat) (st : run) : run :=
  match rows with
  | [] => st
  | r :: rest =>
      let st' :=
        match clean r with
        | Some fields =>
            match emit fields with
            | Some line =>
                {| written := written st ++ [line];
                   processed := S (processed st);
                   skipped := skipped st;
                   warnings := warnings st |}
            | None =>
                {| written := written st; processed := processed st;
                   skipped := S (skipped st);
                   warnings := warnings st ++ [row_num] |}
            end
        | None =>
            {| written := written st; processed := processed st;
               skipped := S (skipped st);
               warnings := warnings st ++ [row_num] |}
        end in
      process_rows clean emit rest (S row_num) st'
  end.

(** the state after [writer.writeheader()] *)
Definition after_header (q : quoting) : run :=
  {| written := [writerow q fieldnames]; processed := 0; skipped := 0;
     warnings := [] |}.

(** [process_csv_file] with the cleaning and the writing of a row as
    parameters, started at row number 1 *)
Definition process_csv_file_with (clean : row -> option (list (option str)))
    (emit : list (option str) -> option str) (rows : list row) : run :=
  process_rows clean emit rows 1 (after_header QUOTE_MINIMAL).

(** [process_csv_file] on the rows of the input file: the writer is
    created without a [quoting] argument, that is with QUOTE_MINIMAL *)
Definition process_csv_file (rows : list row) : run :=
  process_csv_file_with (fun r => Some (cleaned_row r))
                        (fun fields => Some (writerow QUOTE_MINIMAL fields)) rows.

(** [clean_csv_file] of [clean_email_content.py]: every row is cleaned
    with [clean_email_content] (a parameter here) and then written by a
    writer created with [quoting=csv.QUOTE_ALL]. *)
Definition clean_csv_file (clean_email_content : str -> str) (rows : list row)
  : list str :=
  let cleaned_emails :=
    map (fun r => [Some (clean_email_content (text_of (subject r)));
                   Some (clean_email_content (text_of (sender r)));
                   Some (clean_email_content (text_of (body r)));
                   date r]) rows in
  writerow QUOTE_ALL fieldnames :: map (writerow QUOTE_ALL) cleaned_emails.

End Processor.

(** ** An executable instance of the libraries

    The Unicode tables are cut down to the ASCII range (no other
    character is a digit or alphanumeric, NFKC changes nothing), which is
    exact on ASCII text.  The text extractor covers start and end tags
    that have no [>] inside an attribute value and the named entities of
    the program's own table; comments, declarations and the content of
    script and style elements are outside it. *)

Fixpoint index_of (c : char) (s : str) : option nat :=
  match s with
  | [] => None
  | x :: s' => if eqc x c then Some O
               else match index_of c s' with Some i => Some (S i) | None => None end
  end.

(** the length of the tag that starts [s], if one does *)
Definition tag_length (s : str) : option nat :=
  match s with
  | lt :: c :: rest =>
      if eqc lt (ch "<") &&
         (ascii_isalpha c ||
          (eqc c (ch "/") && match rest with d :: _ => ascii_isalpha d | [] => false end))
      then match index_of (ch ">") rest with
           | Some i => Some (i + 3)%nat
           | None => None
           end
      else None
  | _ => None
  end.

(** the character an entity at the start of [s] stands for, and its length *)
Definition entity_at (s : str) : option (char * nat) :=
  let table := [(py "&nbsp;", 160); (py "&amp;", ch "&"); (py "&lt;", ch "<");
                (py "&gt;", ch ">"); (py "&quot;", DQ); (py "&#39;", SQ);
                (py "&apos;", SQ)] in
  match find (fun en => starts_with (fst en) s) table with
  | Some (name, c) => Some (c, List.length name)
  | None => None
  end.

Fixpoint extract_text (s : str) (skip : nat) : str :=
  match s with
  | [] => []
  | c :: s' =>
      match skip with
      | S k => extract_text s' k
      | O =>
          match tag_length s with
          | Some (S n) => extract_text s' n
          | _ =>
              match entity_at s with
              | Some (v, S n) => v :: extract_text s' n
              | _ => c :: extract_text s' 0%nat
              end
          end
      end
  end.

#[export] Instance reference : Externals := {|
  isdecimal := ascii_isdigit;
  isalnum := ascii_isalnum;
  nfkc := fun s => s;
  soup_get_text := fun s => Some (extract_text s 0%nat);
  isdecimal_ascii := fun c _ => eq_refl;
  isalnum_ascii := fun c _ => eq_refl;
  isdecimal_isalnum := fun c H =>
    @eq_ind_r bool true (fun b => b || ascii_isalpha c = true) eq_refl _ H;
  nfkc_ascii := fun s _ => eq_refl
|}.

(** ** The try block of [clean_email_text], stage by stage *)

Definition stage_list (S : stages) : list (str -> option str) :=
  [run_decode S; run_tags S; run_links S; run_signatures S;
   run_whitespace S; run_punctuation S; run_unicode S].

(** the text after the calls [fs] when all of them return *)
Fixpoint run_all (fs : list (str -> option str)) (text : str) : option str :=
  match fs with
  | [] => Some text
  | f :: fs' =>
      match f text with
      | Some text' => run_all fs' text'
      | None => None
      end
  end.

(** ** Sample inputs of the specification *)

Definition body_example : str :=
  py "<p>Hello <b>world</b></p>" ++ [NL; NL] ++ py "Visit https://example.com now!!!".

Definition plain_row : row :=
  {| subject := Some (py "Hi"); sender := Some (py "jane@example.com");
     body := Some (py "See you"); date := Some (py "Mon") |}.

(** a cleaner whose tag-removal call raises, the other calls being the
    program's own *)
Definition tags_raise {E : Externals} : stages := {|
  run_decode := run_decode own_stages;
  run_tags := fun _ => None;
  run_links := run_links own_stages;
  run_signatures := run_signatures own_stages;
  run_whitespace := run_whitespace own_stages;
  run_punctuation := run_punctuation own_stages;
  run_unicode := run_unicode own_stages
|}.

(** ** Outcomes of one turn of the loop of [process_csv_file] *)

(** a row whose cleaning or writing raises *)
Definition fails (clean : row -> option (list (option str)))
    (emit : list (option str) -> option str) (r : row) : Prop :=
  clean r = None \/ exists fields, clean r = Some fields /\ emit fields = None.

(** a row that is cleaned and written as [line] *)
Definition writes (clean : row -> option (list (option str)))
    (emit : list (option str) -> option str) (r : row) (line : str) : Prop :=
  exists fields, clean r = Some fields /\ emit fields = Some line.

(** a cleaning that raises on a row without date and is the program's own
    on the others *)
Definition row_two_raises (r : row) : option (list (option str)) :=
  match date r with
  | Some _ => Some (cleaned_row r)
  | None => None
  end.

(** ** What a match needs *)

(** the character positions a match of the pattern cannot do without *)
Definition mandatory (r : regex) : list atom :=
  flat_map (fun nd =>
              match nd with
              | One a => [a]
              | Rep a (S _) _ _ => [a]
              | _ => []
              end) r.

(** the characters a URL goes on with: those outside the negated set *)
Definition url_char (c : char) : bool := accepts no_flags (NoneOf url_stop) c.

(** a scheme followed by one URL character at least *)
Definition url_shape (s : str) : bool :=
  match s with
  | c1 :: c2 :: c3 :: c4 :: c5 :: c6 :: c7 :: c8 :: rest =>
      eqc c1 (ch "h") && eqc c2 (ch "t") && eqc c3 (ch "t") && eqc c4 (ch "p")
      && ((eqc c5 (ch ":") && eqc c6 (ch "/") && eqc c7 (ch "/") && url_char c8)
          || (eqc c5 (ch "s") && eqc c6 (ch ":") && eqc c7 (ch "/") && eqc c8 (ch "/")
              && match rest with c9 :: _ => url_char c9 | [] => false end))
  | _ => false
  end.

(** ** Phone numbers in a text *)

(** the last character of a text, if it has one *)
Fixpoint last_char (s : str) : option char :=
  match s with
  | [] => None
  | [c] => Some c
  | _ :: s' => last_char s'
  end.

(** the character before what follows [s], when [prev] stands before [s] *)
Definition prev_after (prev : option char) (s : str) : option char :=
  match last_char s with
  | Some c => Some c
  | None => prev
  end.

(** [n] decimal digits *)
Definition digits {E : Externals} (n : nat) (d : str) : Prop :=
  List.length d = n /\ forallb isdecimal d = true.

(** what a separator position of a phone number holds: a hyphen, a dot
    or nothing *)
Definition separator (s : str) : Prop :=
  s = [] \/ s = [ch "-"] \/ s = [ch "."].

(** A pattern is local before [X] when its matches in a text that ends
    in a non-word character are the same whether or not [X] follows the
    text, and end before that last character. *)
Definition local_before {E : Externals} (X : str) (r : regex) : Prop :=
  forall b prev,
    b <> [] ->
    isword_opt (last_char b) = false ->
    match_here no_flags r prev (b ++ X) = match_here no_flags r prev b
    /\ forall n, match_here no_flags r prev b = Some n -> (n < List.length b)%nat.

(** ** Plain text *)

(** an ASCII letter or a space *)
Definition plain_char (c : char) : bool := ascii_isalpha c || eqc c SPC.

(** no two spaces in a row *)
Fixpoint single_spaced (s : str) : bool :=
  match s with
  | c :: s' =>
      match s' with
      | c' :: _ => negb (eqc c SPC && eqc c' SPC) && single_spaced s'
      | [] => true
      end
  | [] => true
  end.

Definition is_space_opt (o : option char) : bool :=
  match o with Some c => eqc c SPC | None => false end.

(** One line of words: ASCII letters with single spaces between the
    words and none at either end, which no boilerplate pattern matches. *)
Definition plain_text {E : Externals} (s : str) : bool :=
  forallb plain_char s && single_spaced s
  && negb (is_space_opt (hd_error s)) && negb (is_space_opt (last_char s))
  && negb (is_signature s).

(** ** [clean_text] of [gmail_export.py] *)

Definition TAB : char := 9.

(** what the negated set [^\x20-\x7E\n\t] lets through: printable ASCII,
    the line feed and the tab *)
Definition printable (c : char) : bool :=
  between 32 126 c || eqc c NL || eqc c TAB.

Definition clean_text {E : Externals} (text : str) : str :=
  if is_empty text then [] else
  let text := sub no_flags [One (Lit CR); One (Lit NL)] [NL] text in      (* \r\n *)
  let text := sub no_flags [One (Lit CR)] [NL] text in                    (* \r *)
  let text := sub no_flags [Plus (Lit NL)] [NL] text in                   (* \n+ *)
  let text :=
    sub no_flags [One (NoneOf [Range 32 126; Ch NL; Ch TAB])] [] text in  (* [^\x20-\x7E\n\t] *)
  let text := sub no_flags [Plus (Lit SPC)] (py " ") text in              (* ' +' *)
  strip text.

(** ** [clean_email_content] of [clean_email_content.py] *)

(** https?://[^\s]+ *)
Definition content_url_pattern : regex :=
  lits "http" ++ [Opt (Lit (ch "s"))] ++ lits "://" ++ [Plus (NoneOf [Sp])].

(** www\.[^\s]+ *)
Definition content_www_pattern : regex :=
  lits "www." ++ [Plus (NoneOf [Sp])].

(** [html_unescape] is [html.unescape]; [soup_text] is the parse by
    BeautifulSoup, the removal of the script and style elements and
    [get_text()], [None] when it raises (nothing catches it here). *)
Definition clean_email_content {E : Externals} (html_unescape : str -> str)
    (soup_text : str -> option str) (text : str) : option str :=
  if is_empty text then Some [] else
  let text := html_unescape text in
  match soup_text text with
  | None => None
  | Some text =>
      let text := sub no_flags [Plus Space] (py " ") text in              (* \s+ *)
      let text := strip text in
      let text := sub no_flags content_url_pattern (py "link") text in
      let text := sub no_flags content_www_pattern (py "link") text in
      let text := sub no_flags email_pattern (py "email") text in
      let text := sub no_flags phone_pattern (py "phone") text in
      let text := sub no_flags [AtLeast 2 (OneOf [Ch (ch "!")])] (py "!") text in
      let text := sub no_flags [AtLeast 2 (OneOf [Ch (ch "?")])] (py "?") text in
      let text := sub no_flags [AtLeast 2 (OneOf [Ch (ch ".")])] (py ".") text in
      let text := sub no_flags [Plus (Lit SPC)] (py " ") text in          (* ' +' *)
      Some (strip text)
  end.

(** a white-space character other than the space *)
Definition wide_space (c : char) : bool := isspace c && negb (eqc c SPC).

(** ** Shapes of texts *)

(** no white space at either end: what [strip] leaves *)
Definition trimmed (s : str) : Prop := strip s = s.

(** the literal words of a pattern made of literals only *)
Fixpoint literal_word (r : regex) : option str :=
  match r with
  | [] => Some []
  | One (Lit x) :: r' =>
      match literal_word r' with Some w => Some (x :: w) | None => None end
  | _ => None
  end.

(** [w] is [p] up to the case of its letters, as IGNORECASE compares *)
Fixpoint same_word (p w : str) : bool :=
  match p, w with
  | [], [] => true
  | x :: p', c :: w' => lit_eq true x c && same_word p' w'
  | _, _ => false
  end.

(** the length of the match of the pattern at the start of the text, none
    counting as zero *)
Definition match_length {E : Externals} (fl : flags) (r : regex) (s : str) : nat :=
  match match_here fl r None s with Some n => n | None => O end.

(** ** Bounds of a match *)

(** [k] returns, when it does, a length between [lo] and what is left *)
Definition bounded (lo : nat) (k : option char -> str -> option nat) : Prop :=
  forall prev s n, k prev s = Some n -> (lo <= n <= List.length s)%nat.

(** ** What the loop of [process_csv_file] does with one row *)

(** the line written for a row, if its cleaning and its writing return *)
Definition line_of (clean : row -> option (list (option str)))
    (emit : list (option str) -> option str) (r : row) : option str :=
  match clean r with
  | Some fields => emit fields
  | None => None
  end.

Definition raised {A : Type} (o : option A) : bool :=
  match o with Some _ => false | None => true end.

(** the lines written for a list of rows, in their order *)
Definition lines_of (clean : row -> option (list (option str)))
    (emit : list (option str) -> option str) (rows : list row) : list str :=
  flat_map (fun r => match line_of clean emit r with Some l => [l] | None => [] end)
           rows.

(** the numbers, counted from [first], of the rows that raise *)
Definition failing_numbers (clean : row -> option (list (option str)))
    (emit : list (option str) -> option str) (first : nat) (rows : list row)
  : list nat :=
  map fst (filter (fun numbered => raised (line_of clean emit (snd numbered)))
                  (combine (seq first (List.length rows)) rows)).

(** ** Runs of characters *)

(** the length of the longest prefix of [s] made of characters in [f] *)
Fixpoint run_length (f : char -> bool) (s : str) : nat :=
  match s with
  | c :: s' => if f c then S (run_length f s') else O
  | [] => O
  end.

(** does [s] start with a character in [f]? *)
Definition starts_in (f : char -> bool) (s : str) : bool :=
  match s with c :: _ => f c | [] => false end.

(** no two characters in [f] stand side by side in [s] *)
Fixpoint no_double (f : char -> bool) (s : str) : bool :=
  match s with
  | c :: s' => negb (f c && starts_in f s') && no_double f s'
  | [] => true
  end.

(** ** [extract_body] of [gmail_export.py] *)

(** A message payload as the Gmail API returns it: its MIME type, the
    data of its body ([None] when the body has no data entry) and its
    parts ([None] when it has no parts entry).  Every part carries a body. *)
#[warnings="-register-all"] Inductive payload :=
| Payload (mimeType : str) (data : option str) (parts : option (list payload)).

Fixpoint str_eqb (a b : str) : bool :=
  match a, b with
  | [], [] => true
  | x :: a', y :: b' => eqc x y && str_eqb a' b'
  | _, _ => false
  end.

(** the data when it is true for [if], that is present and not empty *)
Definition truthy (d : option str) : option str :=
  match d with
  | Some (c :: s) => Some (c :: s)
  | _ => None
  end.

(** the loop over [payload['parts']]; [decode] is the base64 and UTF-8
    decoding of the data *)
Fixpoint first_text_part (decode : str -> str) (ps : list payload) : option str :=
  match ps with
  | [] => None
  | Payload mime d _ :: rest =>
      if str_eqb mime (py "text/plain") then
        match truthy d with
        | Some x => Some (decode x)
        | None => first_text_part decode rest
        end
      else if str_eqb mime (py "text/html") then
        match truthy d with
        | Some x => Some (decode x)
        | None => first_text_part decode rest
        end
      else first_text_part decode rest
  end.

Definition extract_body (decode : str -> str) (p : payload) : str :=
  match p with
  | Payload _ d parts =>
      match truthy d with
      | Some x => decode x
      | None =>
          match parts with
          | Some ps =>
              match first_text_part decode ps with
              | Some text => text
              | None => py "No content available"
              end
          | None => py "No content available"
          end
      end
  end.

(** a part without what is nested in it *)
Definition without_parts (p : payload) : payload :=
  match p with Payload mime d _ => Payload mime d None end.

(** every line break of [s] is followed by a character that is not white
    space *)
Fixpoint breaks_before_text (s : str) : bool :=
  match s with
  | c :: s' =>
      (if eqc c NL then
         match s' with c' :: _ => negb (isspace c') | [] => false end
       else true)
      && breaks_before_text s'
  | [] => true
  end.

(** a text as [clean_text] leaves it: printable characters, line feeds
    and tabs only, no two line feeds and no two spaces side by side, no
    white space at either end *)
Definition settled (s : str) : Prop :=
  forallb printable s = true
  /\ no_double (fun c => eqc c NL) s = true
  /\ no_double (fun c => eqc c SPC) s = true
  /\ strip s = s.

(** a control character between two line breaks *)
Definition hidden_between_breaks : str := py "a" ++ [NL; 0; NL] ++ py "b".

(** ** Dashes *)

Definition EM_DASH : char := 8212.
Definition EN_DASH : char := 8211.

(** every em dash and en dash turned into a hyphen, nothing else touched *)
Definition dashes_to_hyphens (s : str) : str :=
  map (fun c => if eqc c EM_DASH || eqc c EN_DASH then ch "-" else c) s.

(** the fifteen characters the second quote line of [normalize_unicode]
    looks for *)
Definition quote_line_needle : str :=
  py ", " ++ [DQ; SQ; DQ] ++ py ").replace(".

(** ** The brackets of a sender *)

(** the text after the first [x] of [s]; nothing when [s] has no [x] *)
Fixpoint after_first (x : char) (s : str) : option str :=
  match s with
  | c :: s' => if eqc c x then Some s' else after_first x s'
  | [] => None
  end.

(** the text before the first [x] of [s]; nothing when [s] has no [x] *)
Fixpoint before_first (x : char) (s : str) : option str :=
  match s with
  | c :: s' => if eqc c x then Some [] else option_map (cons c) (before_first x s')
  | [] => None
  end.

(** The address as the specification words it: the text between the
    first [<] of the sender and the [>] that closes it. *)
Definition between_first_brackets (sender : str) : option str :=
  match after_first (ch "<") sender with
  | Some rest => before_first (ch ">") rest
  | None => None
  end.

(** every [<] of [s] is closed at once, by a [>] right after it *)
Fixpoint empty_pairs_only (s : str) : bool :=
  match s with
  | c :: s' =>
      (if eqc c (ch "<") then
         match s' with c' :: _ => eqc c' (ch ">") | [] => false end
       else true)
      && empty_pairs_only s'
  | [] => true
  end.

(** * Properties *)

Unset Implicit Arguments.

#[local] Arguments N.eqb : simpl never.
#[local] Arguments N.leb : simpl never.
#[local] Arguments N.ltb : simpl never.
#[local] Arguments eqc : simpl never.
#[local] Arguments ch : simpl never.

Lemma eqc_sym (a b : char) : eqc a b = eqc b a.
Proof. apply N.eqb_sym. Qed.

Lemma eqc_eq (a b : char) : eqc a b = true <-> a = b.
Proof. apply N.eqb_eq. Qed.

Lemma eqc_neq (a b : char) : eqc a b = false <-> a <> b.
Proof. apply N.eqb_neq. Qed.

Lemma eqc_refl (a : char) : eqc a a = true.
Proof. apply N.eqb_refl. Qed.

(** ** Sample runs of the cleaner *)

(** C1, as the specification states it, fails: the cleaned sample body is
    not the one-line string [Hello world Visit link now!]. *)
Lemma C1_body_example_is_not_one_line :
  clean_email_text body_example <> py "Hello world Visit link now!".
Proof. vm_compute. discriminate. Qed.

(** C1 (amended): on the sample body the markup is stripped, the URL
    becomes [link] and [!!!] becomes [!], and the blank line between the
    two paragraphs is reduced to one line break, which
    [normalize_whitespace] keeps: the result has two lines. *)
Theorem C1_body_example :
  clean_email_text body_example = py "Hello world" ++ [NL] ++ py "Visit link now!".
Proof. vm_compute. reflexivity. Qed.

(** C2, as the specification states it, fails: the cleaned subject is not
    [Meeting tomorrow]. *)
Lemma C2_second_prefix_is_not_stripped :
  clean_subject (py "RE: RE: Meeting tomorrow") <> py "Meeting tomorrow".
Proof. vm_compute. discriminate. Qed.

(** C2 (amended): the prefix pattern is anchored at the start of the
    subject, so [clean_subject] strips the first reply prefix only and
    returns [RE: Meeting tomorrow]. *)
Theorem C2_subject_example :
  clean_subject (py "RE: RE: Meeting tomorrow") = py "RE: Meeting tomorrow".
Proof. vm_compute. reflexivity. Qed.

(** ** The exception handler of [clean_email_text] *)

(** C3, as the specification states it, fails: when the tag-removal call
    raises on the input [&amp;], the entity has already been decoded and
    the handler returns [&], not the original text trimmed. *)
Lemma C3_fallback_is_not_the_original :
  ~ (forall (S : stages) (text : str),
        run_all (stage_list S) text = None ->
        clean_email_text_with S text = strip text).
Proof.
  intro H. specialize (H tags_raise (py "&amp;") eq_refl).
  vm_compute in H. discriminate.
Qed.

(** C3 (amended): when a call of the try block raises, the calls before
    it ([done]) having returned and left the text [old], then
    [clean_email_text] returns [old] trimmed: the text as the completed
    stages left it, which is the original input only when the first call
    is the one that raises.  The function returns a string in every case,
    so no exception leaves it. *)
Theorem C3_fallback_returns_current_text :
  forall (S : stages) (text old : str)
         (done rest : list (str -> option str)) (failing : str -> option str),
    is_empty text = false ->
    stage_list S = done ++ failing :: rest ->
    run_all done text = Some old ->
    failing old = None ->
    clean_email_text_with S text = strip old.
Proof.
  intros S text old done rest failing Hne Hsplit Hdone Hfail.
  assert (Hexc : on_exception old = strip old).
  { unfold on_exception. destruct old; reflexivity. }
  unfold clean_email_text_with. rewrite Hne.
  unfold stage_list in Hsplit.
  repeat
    (destruct done as [|f done];
     [ simpl in Hsplit, Hdone; injection Hsplit as <- _;
       injection Hdone as <-; rewrite Hfail; exact Hexc
     | simpl in Hsplit; injection Hsplit as <- Hsplit; simpl in Hdone;
       match type of Hdone with
       | match ?f ?t with _ => _ end = _ =>
           destruct (f t) as [?t'|] eqn:?; [|discriminate]
       end ]).
  destruct done; discriminate.
Qed.

Lemma C3_fallback_returns_current_text_witness :
  clean_email_text_with tags_raise (py "  a &amp; b  ") = strip (py "  a & b  ").
Proof.
  apply (@C3_fallback_returns_current_text tags_raise
           (py "  a &amp; b  ") (py "  a & b  ")
           [run_decode tags_raise]
           [run_links tags_raise; run_signatures tags_raise;
            run_whitespace tags_raise; run_punctuation tags_raise;
            run_unicode tags_raise]
           (run_tags tags_raise)); reflexivity.
Defined.

(** ** Idempotence *)

(** C4, as the specification states it, fails: [&amp;amp;] is cleaned to
    [&amp;], which is cleaned to [&]. *)
Lemma C4_not_idempotent :
  clean_email_text (clean_email_text (py "&amp;amp;"))
  <> clean_email_text (py "&amp;amp;").
Proof. vm_compute. discriminate. Qed.

(** ** The loop of [process_csv_file] *)

Section Isolation.

Variable clean : row -> option (list (option str)).
Variable emit : list (option str) -> option str.

Lemma process_rows_ok r rest n st line :
  writes clean emit r line ->
  process_rows clean emit (r :: rest) n st =
  process_rows clean emit rest (S n)
    {| written := written st ++ [line]; processed := S (processed st);
       skipped := skipped st; warnings := warnings st |}.
Proof. intros (fields & Hc & He). simpl. now rewrite Hc, He. Qed.

Lemma process_rows_fail r rest n st :
  fails clean emit r ->
  process_rows clean emit (r :: rest) n st =
  process_rows clean emit rest (S n)
    {| written := written st; processed := processed st;
       skipped := S (skipped st); warnings := warnings st ++ [n] |}.
Proof.
  intros [Hc | (fields & Hc & He)]; simpl.
  - now rewrite Hc.
  - now rewrite Hc, He.
Qed.

(** C5: of three data rows of which the second raises while it is
    cleaned or written, [process_csv_file] writes the header and the
    lines of rows 1 and 3, in this order and nothing else, counts two
    processed rows and one skipped row, and reports row number 2. *)
Theorem C5_per_record_isolation :
  forall (r1 r2 r3 : row) (line1 line3 : str),
    writes clean emit r1 line1 -> fails clean emit r2 -> writes clean emit r3 line3 ->
    let st := process_csv_file_with clean emit [r1; r2; r3] in
    written st = [writerow QUOTE_MINIMAL fieldnames; line1; line3]
    /\ processed st = 2%nat /\ skipped st = 1%nat /\ warnings st = [2%nat].
Proof.
  intros r1 r2 r3 line1 line3 H1 H2 H3. unfold process_csv_file_with.
  rewrite (process_rows_ok r1 _ _ _ line1 H1), (process_rows_fail r2 _ _ _ H2),
          (process_rows_ok r3 _ _ _ line3 H3).
  simpl. auto.
Qed.

End Isolation.

Lemma C5_per_record_isolation_witness :
  let r2 := {| subject := None; sender := None; body := None; date := None |} in
  let st := process_csv_file_with row_two_raises
              (fun fields => Some (writerow QUOTE_MINIMAL fields))
              [plain_row; r2; plain_row] in
  written st = [py "subject,sender,body,date" ++ [CR; NL];
                py "Hi,jane@example.com,See you,Mon" ++ [CR; NL];
                py "Hi,jane@example.com,See you,Mon" ++ [CR; NL]]
  /\ processed st = 2%nat /\ skipped st = 1%nat /\ warnings st = [2%nat].
Proof.
  apply (@C5_per_record_isolation row_two_raises
           (fun fields => Some (writerow QUOTE_MINIMAL fields))
           plain_row
           {| subject := None; sender := None; body := None; date := None |}
           plain_row
           (py "Hi,jane@example.com,See you,Mon" ++ [CR; NL])
           (py "Hi,jane@example.com,See you,Mon" ++ [CR; NL])).
  - exists (cleaned_row plain_row). split; vm_compute; reflexivity.
  - left. reflexivity.
  - exists (cleaned_row plain_row). split; vm_compute; reflexivity.
Defined.

(** ** Quoting of the output *)

(** C7 fails on [process_csv_file]: its writer is created without a
    [quoting] argument, so a field without comma, quote or line break is
    written bare, whereas the writer of [clean_csv_file], created with
    QUOTE_ALL, quotes every field of the same row. *)
Theorem C7_fields_are_not_all_quoted :
  written (process_csv_file [plain_row])
  = [py "subject,sender,body,date" ++ [CR; NL];
     py "Hi,jane@example.com,See you,Mon" ++ [CR; NL]]
  /\ clean_csv_file (fun text => text) [plain_row]
     = [[DQ] ++ py "subject" ++ [DQ] ++ py "," ++ [DQ] ++ py "sender" ++ [DQ]
          ++ py "," ++ [DQ] ++ py "body" ++ [DQ] ++ py "," ++ [DQ] ++ py "date"
          ++ [DQ; CR; NL];
        [DQ] ++ py "Hi" ++ [DQ] ++ py "," ++ [DQ] ++ py "jane@example.com" ++ [DQ]
          ++ py "," ++ [DQ] ++ py "See you" ++ [DQ] ++ py "," ++ [DQ] ++ py "Mon"
          ++ [DQ; CR; NL]].
Proof. split; vm_compute; reflexivity. Qed.

(** ** Facts about the matcher *)

Section MatcherFacts.

Context {E : Externals}.
Variable fl : flags.

(** A greedy quantifier over a run of accepted characters that ends at a
    character it rejects takes the whole run when the rest of the pattern
    matches there. *)
Lemma rep_greedy_run a k run stop post m :
  forallb (accepts fl a) run = true ->
  accepts fl a stop = false ->
  (forall prev, k prev (stop :: post) = Some m) ->
  forall lo prev,
    (lo <= List.length run)%nat ->
    rep fl a k true lo None prev (run ++ stop :: post) = Some (List.length run + m)%nat.
Proof.
  intros Hrun Hstop Hk. induction run as [|x run IH]; intros lo prev Hlo.
  - simpl in *. rewrite Hstop. simpl. destruct lo; [apply Hk | lia].
  - simpl in Hrun. apply andb_true_iff in Hrun as [Hx Hrun'].
    simpl. rewrite Hx. simpl.
    rewrite (IH Hrun' (pred lo) (Some x)) by (simpl in Hlo; lia).
    reflexivity.
Qed.

Lemma search_from_hit r s prev n :
  match_here fl r prev s = Some n ->
  search_from fl r prev s = Some (O, n).
Proof. intros H. destruct s; simpl; now rewrite H. Qed.

Lemma search_from_skip r c s prev :
  match_here fl r prev (c :: s) = None ->
  search_from fl r prev (c :: s) =
  match search_from fl r (Some c) s with
  | Some (i, n) => Some (S i, n)
  | None => None
  end.
Proof. intros H. simpl search_from. now rewrite H. Qed.

End MatcherFacts.

(** ** The sender *)

Section Sender.

Context {E : Externals}.

Lemma angle_needs_bracket prev c s :
  eqc (ch "<") c = false ->
  match_here no_flags angle_address_pattern prev (c :: s) = None.
Proof.
  intros H. cbn [match_here angle_address_pattern accepts lit_eq ignorecase no_flags].
  rewrite eqc_sym, H. reflexivity.
Qed.

Lemma angle_match prev addr post :
  addr <> [] ->
  contains_char (ch ">") addr = false ->
  match_here no_flags angle_address_pattern prev
    (ch "<" :: addr ++ ch ">" :: post) = Some (List.length addr + 2)%nat.
Proof.
  intros Hne Hno.
  change (match_here no_flags angle_address_pattern prev
            (ch "<" :: addr ++ ch ">" :: post))
    with (option_map S
            (rep no_flags (NoneOf [Ch (ch ">")])
               (match_here no_flags [One (Lit (ch ">"))]) true 1 None
               (Some (ch "<")) (addr ++ ch ">" :: post))).
  rewrite (@rep_greedy_run E no_flags _ _ addr (ch ">") post 1%nat).
  - simpl. f_equal. lia.
  - unfold contains_char in Hno. clear Hne.
    induction addr as [|x addr IH]; [reflexivity|].
    cbn [existsb] in Hno. apply orb_false_iff in Hno as [Hx Hno].
    cbn [forallb accepts existsb item_has lit_eq ignorecase no_flags].
    rewrite eqc_sym, Hx. cbn [orb negb andb]. now apply IH.
  - reflexivity.
  - intros p. reflexivity.
  - destruct addr; [contradiction|simpl; lia].
Qed.

(** a [<] closed at once starts no match: the pattern wants a character
    between the brackets *)
Lemma angle_empty_pair prev s :
  match_here no_flags angle_address_pattern prev (ch "<" :: ch ">" :: s) = None.
Proof. reflexivity. Qed.

(** the search passes over the bracket pairs with nothing inside *)
Lemma angle_search_past_empty_pairs pre addr post :
  empty_pairs_only pre = true ->
  addr <> [] ->
  contains_char (ch ">") addr = false ->
  forall prev,
    search_from no_flags angle_address_pattern prev
      (pre ++ ch "<" :: addr ++ ch ">" :: post)
    = Some (List.length pre, (List.length addr + 2)%nat).
Proof.
  intros Hpre Hne Hno. induction pre as [|c pre IH]; intros prev.
  - cbn [app List.length].
    apply search_from_hit, angle_match; assumption.
  - cbn [empty_pairs_only] in Hpre. apply andb_true_iff in Hpre as [Hc Hpre].
    cbn [app List.length].
    rewrite search_from_skip.
    + rewrite (IH Hpre). reflexivity.
    + destruct (eqc c (ch "<")) eqn:Hlt.
      * apply eqc_eq in Hlt. subst c.
        destruct pre as [|c' pre]; [discriminate|].
        apply eqc_eq in Hc. subst c'. apply angle_empty_pair.
      * apply angle_needs_bracket. now rewrite eqc_sym.
Qed.

(** C9, as the specification states it, fails: in the sender below the
    first [<] is closed at once, so the text between it and its [>] is
    empty, and [clean_sender] returns the content of the second pair. *)
Lemma C9_empty_pair_is_passed_over :
  between_first_brackets (py "<><a>") = Some []
  /\ @clean_sender reference (py "<><a>") = py "a".
Proof. split; vm_compute; reflexivity. Qed.

(** C9 (amended): [clean_sender] returns the content of the first
    bracket pair that has something inside.  When every [<] before it is
    closed at once and the [<] is followed by an address (one character
    or more, none of them [>]) and a [>], the result is exactly the
    address, whatever stands after it, with no cleaning applied to it. *)
Theorem C9_sender_address :
  forall (pre addr post : str),
    empty_pairs_only pre = true ->
    addr <> [] ->
    contains_char (ch ">") addr = false ->
    clean_sender (pre ++ ch "<" :: addr ++ ch ">" :: post) = addr.
Proof.
  intros pre addr post Hpre Hne Hno. unfold clean_sender.
  replace (is_empty (pre ++ ch "<" :: addr ++ ch ">" :: post)) with false
    by (destruct pre; reflexivity).
  unfold search.
  rewrite (@angle_search_past_empty_pairs pre addr post Hpre Hne Hno).
  replace (List.length addr + 2 - 2)%nat with (List.length addr) by lia.
  replace (S (List.length pre)) with (List.length (pre ++ [ch "<"]))
    by (rewrite length_app; simpl; lia).
  replace (pre ++ ch "<" :: addr ++ ch ">" :: post)
    with ((pre ++ [ch "<"]) ++ addr ++ ch ">" :: post)
    by (rewrite <- app_assoc; reflexivity).
  rewrite skipn_app, skipn_all, Nat.sub_diag. simpl.
  rewrite firstn_app, firstn_all, Nat.sub_diag. simpl. apply app_nil_r.
Qed.

End Sender.

Lemma C9_sender_address_witness :
  clean_sender (py "Jane Doe <jane@example.com>") = py "jane@example.com".
Proof.
  apply (@C9_sender_address reference (py "Jane Doe ") (py "jane@example.com") []).
  - reflexivity.
  - discriminate.
  - reflexivity.
Defined.

(** ** Lines *)

Lemma split_lines_not_nil (s : str) : split_lines s <> [].
Proof.
  induction s as [|c s IH]; [discriminate|].
  cbn [split_lines]. destruct (eqc c NL); [discriminate|].
  destruct (split_lines s); discriminate.
Qed.

Lemma split_lines_no_newline (s l : str) :
  In l (split_lines s) -> contains_char NL l = false.
Proof.
  revert l. induction s as [|c s IH]; intros l Hin.
  - destruct Hin as [<-|[]]. reflexivity.
  - cbn [split_lines] in Hin. destruct (eqc c NL) eqn:Hc.
    + destruct Hin as [<-|Hin]; [reflexivity|now apply IH].
    + destruct (split_lines s) as [|l0 ls] eqn:Hs.
      * now destruct (split_lines_not_nil s).
      * destruct Hin as [<-|Hin].
        -- unfold contains_char. cbn [existsb]. rewrite eqc_sym, Hc.
           apply IH. now left.
        -- apply IH. now right.
Qed.

Lemma split_lines_one_line (l : str) :
  contains_char NL l = false -> split_lines l = [l].
Proof.
  unfold contains_char. induction l as [|c l IH]; intros H; [reflexivity|].
  cbn [existsb] in H. apply orb_false_iff in H as [Hc H].
  cbn [split_lines]. rewrite eqc_sym, Hc, (IH H). reflexivity.
Qed.

Lemma split_lines_app (l rest : str) :
  contains_char NL l = false ->
  split_lines (l ++ NL :: rest) = l :: split_lines rest.
Proof.
  unfold contains_char. induction l as [|c l IH]; intros H.
  - cbn [app split_lines]. now rewrite eqc_refl.
  - cbn [existsb] in H. apply orb_false_iff in H as [Hc H].
    cbn [app split_lines]. rewrite eqc_sym, Hc, (IH H). reflexivity.
Qed.

(** splitting undoes joining, for one line or more without line breaks *)
Lemma split_join_lines (ls : list str) :
  ls <> [] ->
  (forall l, In l ls -> contains_char NL l = false) ->
  split_lines (join_lines ls) = ls.
Proof.
  induction ls as [|l ls IH]; intros Hne Hall; [contradiction|].
  destruct ls as [|l' ls].
  - cbn [join_lines]. apply split_lines_one_line, Hall. now left.
  - change (join_lines (l :: l' :: ls)) with (l ++ NL :: join_lines (l' :: ls)).
    rewrite split_lines_app by (apply Hall; now left).
    rewrite IH; [reflexivity|discriminate|].
    intros x Hx. apply Hall. now right.
Qed.

(** ** The signature delimiter *)

(** C6 fails on the signature delimiter: [remove_signatures] searches
    the delimiter pattern, which ends in a line break, in lines obtained
    by splitting at line breaks, so a line [--] is never dropped: whenever
    the text has such a line, so has the output of [remove_signatures]. *)
Theorem C6_delimiter_line_is_kept :
  forall (E : Externals) (text : str),
    In (py "--") (split_lines text) ->
    In (py "--") (split_lines (remove_signatures text)).
Proof.
  intros E text Hin. unfold remove_signatures.
  assert (Hkept : In (py "--")
            (filter (fun line => negb (is_signature line)) (split_lines text))).
  { apply filter_In. split; [exact Hin|]. vm_compute. reflexivity. }
  rewrite split_join_lines; [exact Hkept | |].
  - intros Hnil. rewrite Hnil in Hkept. contradiction.
  - intros l Hl. apply filter_In in Hl as [Hl _].
    now apply split_lines_no_newline with (s := text).
Qed.

Lemma C6_delimiter_line_is_kept_witness :
  In (py "--")
     (split_lines (remove_signatures (py "Regards" ++ [NL] ++ py "--" ++ [NL] ++ py "Jane"))).
Proof.
  apply (@C6_delimiter_line_is_kept reference
           (py "Regards" ++ [NL] ++ py "--" ++ [NL] ++ py "Jane")).
  vm_compute. right. left. reflexivity.
Defined.

(** ** What a match needs *)

Section Needs.

Context {E : Externals}.
Variable fl : flags.

Lemma orelse_some (x y : option nat) (n : nat) :
  orelse x y = Some n -> x = Some n \/ y = Some n.
Proof. destruct x; simpl; auto. Qed.

Lemma option_map_S_some (x : option nat) (n : nat) :
  option_map S x = Some n -> exists n', x = Some n' /\ n = S n'.
Proof. destruct x; simpl; intros H; [injection H as <-; eauto|discriminate]. Qed.

(** where a quantified position succeeds, the rest of the pattern
    succeeds on a suffix *)
Lemma rep_continues a k g s :
  forall lo hi prev n,
    rep fl a k g lo hi prev s = Some n ->
    exists pre s' prev' n', s = pre ++ s' /\ k prev' s' = Some n'.
Proof.
  induction s as [|c s IH]; intros lo hi prev n H.
  - cbn [rep] in H. destruct lo; [|discriminate].
    exists [], [], prev, n. auto.
  - cbn [rep] in H.
    assert (Hstop : match lo with O => k prev (c :: s) | S _ => None end = Some n ->
                    exists pre s' prev' n', c :: s = pre ++ s' /\ k prev' s' = Some n').
    { destruct lo; [|discriminate]. intros Hk. exists [], (c :: s), prev, n. auto. }
    assert (Htake : option_map S (rep fl a k g (pred lo) (option_map pred hi) (Some c) s)
                    = Some n ->
                    exists pre s' prev' n', c :: s = pre ++ s' /\ k prev' s' = Some n').
    { intros Ht. apply option_map_S_some in Ht as (n' & Ht & _).
      apply IH in Ht as (pre & s' & prev' & n'' & -> & Hk).
      exists (c :: pre), s', prev', n''. auto. }
    destruct (accepts fl a c && match hi with Some O => false | _ => true end);
      [|now apply Hstop].
    destruct g; apply orelse_some in H as [H|H]; auto.
Qed.

(** a quantifier with a positive lower bound takes the first character *)
Lemma rep_takes_first a k g lo hi prev s n :
  rep fl a k g (S lo) hi prev s = Some n ->
  exists c s', s = c :: s' /\ accepts fl a c = true.
Proof.
  destruct s as [|c s]; cbn [rep]; [discriminate|].
  destruct (accepts fl a c) eqn:Hc; [eauto|discriminate].
Qed.

Lemma word_continues p k :
  forall s prev n,
    word fl p k prev s = Some n ->
    exists pre s' prev' n', s = pre ++ s' /\ k prev' s' = Some n'.
Proof.
  induction p as [|x p IH]; intros s prev n H.
  - exists [], s, prev, n. auto.
  - cbn [word] in H. destruct s as [|c s]; [discriminate|].
    destruct (lit_eq (ignorecase fl) x c); [|discriminate].
    apply option_map_S_some in H as (n' & H & _).
    apply IH in H as (pre & s' & prev' & n'' & -> & Hk).
    exists (c :: pre), s', prev', n''. auto.
Qed.

Lemma first_alt_continues alts k s prev n :
  first_alt fl alts k prev s = Some n ->
  exists pre s' prev' n', s = pre ++ s' /\ k prev' s' = Some n'.
Proof.
  induction alts as [|p alts IH]; cbn [first_alt]; [discriminate|].
  intros H. apply orelse_some in H as [H|H]; [|auto].
  now apply word_continues in H.
Qed.

Lemma existsb_suffix (f : char -> bool) (pre s : str) :
  existsb f s = true -> existsb f (pre ++ s) = true.
Proof. intros H. rewrite existsb_app, H. apply orb_true_r. Qed.

(** every mandatory position of a pattern is filled by a character of
    the text it matches *)
Lemma match_needs a r :
  List.In a (mandatory r) ->
  forall prev s n,
    match_here fl r prev s = Some n -> existsb (accepts fl a) s = true.
Proof.
  induction r as [|nd r IH]; intros Ha prev s n H; [contradiction|].
  unfold mandatory in Ha. cbn [flat_map] in Ha. apply in_app_or in Ha.
  fold (mandatory r) in Ha.
  destruct nd as [b|b lo hi g| | |alts]; cbn [match_here] in H.
  - destruct s as [|c s]; [discriminate|].
    destruct (accepts fl b c) eqn:Hb; [|discriminate].
    apply option_map_S_some in H as (n' & H & _).
    destruct Ha as [[<-|[]]|Ha].
    + cbn [existsb]. now rewrite Hb.
    + cbn [existsb]. rewrite (IH Ha _ _ _ H). apply orb_true_r.
  - destruct Ha as [Ha|Ha].
    + destruct lo as [|lo]; [contradiction|]. destruct Ha as [<-|[]].
      apply rep_takes_first in H as (c & s' & -> & Hc).
      cbn [existsb]. now rewrite Hc.
    + apply rep_continues in H as (pre & s' & prev' & n' & -> & Hk).
      apply existsb_suffix. exact (IH Ha _ _ _ Hk).
  - destruct Ha as [[]|Ha]. destruct prev; [discriminate|].
    exact (IH Ha _ _ _ H).
  - destruct Ha as [[]|Ha]. destruct (at_boundary prev s); [|discriminate].
    exact (IH Ha _ _ _ H).
  - destruct Ha as [[]|Ha].
    apply first_alt_continues in H as (pre & s' & prev' & n' & -> & Hk).
    apply existsb_suffix. exact (IH Ha _ _ _ Hk).
Qed.

Lemma no_match_without a r prev s :
  List.In a (mandatory r) ->
  existsb (accepts fl a) s = false ->
  match_here fl r prev s = None.
Proof.
  intros Ha Hs. destruct (match_here fl r prev s) eqn:H; [|reflexivity].
  rewrite (match_needs a r Ha prev s n H) in Hs. discriminate.
Qed.

Lemma search_without a r s :
  List.In a (mandatory r) ->
  existsb (accepts fl a) s = false ->
  forall prev, search_from fl r prev s = None.
Proof.
  intros Ha. induction s as [|c s IH]; intros Hs prev.
  - cbn [search_from]. now rewrite (no_match_without a r prev _ Ha Hs).
  - cbn [search_from]. rewrite (no_match_without a r prev _ Ha Hs).
    cbn [existsb] in Hs. apply orb_false_iff in Hs as [_ Hs].
    now rewrite (IH Hs).
Qed.

(** a text without a character for some mandatory position is left as
    it is by a substitution *)
Lemma sub_without a r repl s :
  List.In a (mandatory r) ->
  existsb (accepts fl a) s = false ->
  forall prev, sub_from fl r repl prev s 0 = s.
Proof.
  intros Ha. induction s as [|c s IH]; intros Hs prev.
  - cbn [sub_from]. now rewrite (no_match_without a r prev _ Ha Hs).
  - cbn [sub_from]. rewrite (no_match_without a r prev _ Ha Hs).
    cbn [existsb] in Hs. apply orb_false_iff in Hs as [_ Hs].
    now rewrite (IH Hs).
Qed.

End Needs.

(** ** Quantifiers, unfolded *)

Section Quantifiers.

Context {E : Externals}.
Variable fl : flags.

Lemma orelse_none_r (x : option nat) : orelse x None = x.
Proof. now destruct x. Qed.

(** a? *)
Lemma rep_opt_cons a k prev c s :
  rep fl a k true 0 (Some 1%nat) prev (c :: s) =
  if accepts fl a c
  then orelse (option_map S (k (Some c) s)) (k prev (c :: s))
  else k prev (c :: s).
Proof.
  cbn [rep option_map pred]. destruct (accepts fl a c); [|reflexivity].
  cbn [andb]. destruct s as [|c' s]; cbn [rep]; [reflexivity|].
  now rewrite andb_false_r.
Qed.

Lemma rep_zero_nil a k g hi prev :
  rep fl a k g 0 hi prev [] = k prev [].
Proof. reflexivity. Qed.

(** a{n} with n positive *)
Lemma rep_exact_cons a k g n prev c s :
  rep fl a k g (S n) (Some (S n)) prev (c :: s) =
  if accepts fl a c
  then option_map S (rep fl a k g n (Some n) (Some c) s)
  else None.
Proof.
  cbn [rep option_map pred]. destruct (accepts fl a c); [|reflexivity].
  cbn [andb]. destruct g; [apply orelse_none_r|reflexivity].
Qed.

Lemma rep_exact_nil a k g n hi prev :
  rep fl a k g (S n) hi prev [] = None.
Proof. reflexivity. Qed.

(** a{0} *)
Lemma rep_exact_zero a k g prev s :
  rep fl a k g 0 (Some 0%nat) prev s = k prev s.
Proof. destruct s; cbn [rep]; [reflexivity|]. now rewrite andb_false_r. Qed.

(** a greedy a* at the end of a pattern always matches *)
Lemma rep_star_last a s :
  forall prev, exists n, rep fl a (fun _ _ => Some O) true 0 None prev s = Some n.
Proof.
  induction s as [|c s IH]; intros prev; cbn [rep]; [eauto|].
  destruct (accepts fl a c); cbn [andb]; [|eauto].
  change (Nat.pred 0) with O. change (option_map Nat.pred None) with (@None nat).
  destruct (IH (Some c)) as [n ->]. cbn. eauto.
Qed.

(** a greedy a+ at the end of a pattern matches exactly when the first
    character is accepted *)
Lemma rep_plus_last_some a prev c s :
  accepts fl a c = true ->
  exists n, rep fl a (fun _ _ => Some O) true 1 None prev (c :: s) = Some (S n).
Proof.
  intros H. cbn [rep option_map pred]. rewrite H. cbn [andb].
  destruct (rep_star_last a s (Some c)) as [n ->]. cbn. eauto.
Qed.

Lemma rep_plus_last_none a prev s :
  match s with c :: _ => accepts fl a c | [] => false end = false ->
  rep fl a (fun _ _ => Some O) true 1 None prev s = None.
Proof.
  destruct s as [|c s]; cbn [rep]; [reflexivity|]. now intros ->.
Qed.

End Quantifiers.

(** ** URLs *)

Section Urls.

Context {E : Externals}.

Lemma url_pattern_nodes :
  url_pattern =
  [One (Lit (ch "h")); One (Lit (ch "t")); One (Lit (ch "t")); One (Lit (ch "p"));
   Rep (Lit (ch "s")) 0 (Some 1%nat) true;
   One (Lit (ch ":")); One (Lit (ch "/")); One (Lit (ch "/"));
   Rep (NoneOf url_stop) 1 None true].
Proof. reflexivity. Qed.

Lemma url_match_spec prev s :
  match match_here no_flags url_pattern prev s with
  | Some n => url_shape s = true /\ n <> O
  | None => url_shape s = false
  end.
Proof.
  rewrite url_pattern_nodes.
  destruct s as [|c1 [|c2 [|c3 [|c4 [|c5 [|c6 [|c7 [|c8 s]]]]]]]];
  cbn [match_here accepts lit_eq ignorecase no_flags url_shape].
  all: repeat first
    [ rewrite rep_opt_cons
    | rewrite rep_zero_nil
    | progress cbn [option_map accepts lit_eq ignorecase no_flags andb orb orelse]
    | match goal with
      | |- context [eqc ?a (ch ?b)] => destruct (eqc a (ch b)) eqn:?
      end ].
  all: try reflexivity.
  all: repeat match goal with
    | |- context [rep no_flags (NoneOf url_stop) _ true 1 None ?p (?c :: ?l)] =>
        let H := fresh "Hc" in
        destruct (url_char c) eqn:H;
        [ let n := fresh "n" in
          destruct (rep_plus_last_some no_flags (NoneOf url_stop) p c l H) as [n ->]
        | rewrite (rep_plus_last_none no_flags (NoneOf url_stop) p (c :: l) H) ]
    | |- context [rep no_flags (NoneOf url_stop) _ true 1 None ?p ?l] =>
        is_var l; destruct l
    | |- context [rep no_flags (NoneOf url_stop) _ true 1 None ?p []] =>
        rewrite rep_exact_nil
    end.
  all: cbn [option_map orelse orb]; try reflexivity; try (split; [reflexivity|discriminate]).
Qed.

Lemma url_match_none prev s :
  url_shape s = false -> match_here no_flags url_pattern prev s = None.
Proof.
  intros H. pose proof (url_match_spec prev s) as Hs.
  destruct (match_here no_flags url_pattern prev s); [|reflexivity].
  destruct Hs as [Hs _]. congruence.
Qed.

Lemma url_match_some prev s :
  url_shape s = true ->
  exists n, match_here no_flags url_pattern prev s = Some (S n).
Proof.
  intros H. pose proof (url_match_spec prev s) as Hs.
  destruct (match_here no_flags url_pattern prev s) as [[|n]|].
  - destruct Hs as [_ Hs]. contradiction.
  - eauto.
  - congruence.
Qed.

Lemma url_shape_head c s : url_shape (c :: s) = true -> c = ch "h".
Proof.
  destruct s as [|c2 [|c3 [|c4 [|c5 [|c6 [|c7 [|c8 s]]]]]]]; try discriminate.
  cbn [url_shape]. destruct (eqc c (ch "h")) eqn:H; [|discriminate].
  intros _. now apply eqc_eq.
Qed.

Lemma url_shape_nil : url_shape [] = false.
Proof. reflexivity. Qed.

Local Notation "'redact'" := (sub_from no_flags url_pattern (py "link")).

Lemma redact_nil prev skip : redact prev [] skip = [].
Proof. destruct skip; reflexivity. Qed.

Lemma redact_hit prev c s :
  url_shape (c :: s) = true ->
  exists n, redact prev (c :: s) 0 = py "link" ++ redact (Some c) s n.
Proof.
  intros H. destruct (url_match_some prev _ H) as [n Hn].
  exists n. cbn [sub_from]. now rewrite Hn.
Qed.

Lemma redact_miss prev c s :
  url_shape (c :: s) = false ->
  redact prev (c :: s) 0 = c :: redact (Some c) s 0.
Proof. intros H. cbn [sub_from]. now rewrite (url_match_none prev _ H). Qed.

(** a character of the result other than the [l] of [link] is a copy *)
Lemma redact_copy prev s a rest :
  redact prev s 0 = a :: rest ->
  a <> ch "l" ->
  exists s', s = a :: s' /\ redact (Some a) s' 0 = rest.
Proof.
  intros H Ha. destruct s as [|c s]; [discriminate|].
  destruct (url_shape (c :: s)) eqn:Hs.
  - destruct (redact_hit prev c s Hs) as [n Hn]. rewrite Hn in H.
    injection H as H _. now destruct Ha.
  - rewrite (redact_miss prev c s Hs) in H. injection H as -> <-. eauto.
Qed.

(** the result goes on with a URL character only where the text does *)
Lemma redact_url_char prev s x rest :
  redact prev s 0 = x :: rest ->
  url_char x = true ->
  exists y s', s = y :: s' /\ url_char y = true.
Proof.
  intros H Hx. destruct s as [|c s]; [discriminate|].
  destruct (url_shape (c :: s)) eqn:Hs.
  - apply url_shape_head in Hs as ->. exists (ch "h"), s. split; reflexivity.
  - rewrite (redact_miss prev c s Hs) in H. injection H as -> _. eauto.
Qed.

Ltac copy_char H :=
  let s' := fresh "s" in
  let Hs := fresh "Hs" in
  apply redact_copy in H as (s' & Hs & H); [subst | discriminate].

(** a copied character does not start a URL in the result when it does
    not in the text *)
Lemma redact_no_new_url c s :
  url_shape (c :: s) = false ->
  url_shape (c :: redact (Some c) s 0) = false.
Proof.
  intros Hno.
  destruct (url_shape (c :: redact (Some c) s 0)) eqn:Hout; [exfalso|reflexivity].
  destruct (redact (Some c) s 0) as [|o1 [|o2 [|o3 [|o4 [|o5 [|o6 [|o7 out]]]]]]] eqn:H;
    try discriminate.
  cbn [url_shape] in Hout.
  repeat (apply andb_true_iff in Hout as [Hout ?]).
  repeat match goal with
         | Hc : eqc _ (ch _) = true |- _ => apply eqc_eq in Hc; subst
         end.
  copy_char H. copy_char H. copy_char H.
  match goal with
  | Hx : _ || _ = true |- _ => rename Hx into Hor
  end.
  apply orb_true_iff in Hor as [Hor|Hor].
  - repeat (apply andb_true_iff in Hor as [Hor ?]).
    repeat match goal with
           | Hc : eqc _ (ch _) = true |- _ => apply eqc_eq in Hc; subst
           end.
    copy_char H. copy_char H. copy_char H.
    match goal with
    | Hu : url_char _ = true |- _ =>
        destruct (redact_url_char _ _ _ _ H Hu) as (y & s' & -> & Hy)
    end.
    cbn [url_shape] in Hno. rewrite !eqc_refl, Hy in Hno. discriminate.
  - repeat (apply andb_true_iff in Hor as [Hor ?]).
    repeat match goal with
           | Hc : eqc _ (ch _) = true |- _ => apply eqc_eq in Hc; subst
           end.
    copy_char H. copy_char H. copy_char H. copy_char H.
    match goal with
    | Hu : match ?t with [] => _ | _ :: _ => _ end = true |- _ =>
        destruct t as [|o8 out] eqn:H8; [discriminate|];
        destruct (redact_url_char _ _ _ _ H8 Hu) as (y & s' & -> & Hy)
    end.
    cbn [url_shape] in Hno. rewrite !eqc_refl, Hy in Hno.
    cbn [andb] in Hno. rewrite orb_true_r in Hno. discriminate.
Qed.

Lemma url_search_miss prev c s :
  url_shape (c :: s) = false ->
  search_from no_flags url_pattern (Some c) s = None ->
  search_from no_flags url_pattern prev (c :: s) = None.
Proof.
  intros H Hs. cbn [search_from].
  now rewrite (url_match_none prev _ H), Hs.
Qed.

(** no URL is left after the substitution *)
Lemma redact_leaves_no_url s :
  forall skip prev prev',
    search_from no_flags url_pattern prev' (redact prev s skip) = None.
Proof.
  induction s as [|c s IH]; intros skip prev prev'.
  - rewrite redact_nil. cbn [search_from].
    now rewrite (url_match_none prev' [] url_shape_nil).
  - destruct skip as [|skip]; [|apply IH].
    destruct (url_shape (c :: s)) eqn:Hs.
    + destruct (redact_hit prev c s Hs) as [n ->].
      change (py "link" ++ redact (Some c) s n)
        with (ch "l" :: ch "i" :: ch "n" :: ch "k" :: redact (Some c) s n).
      repeat (apply url_search_miss;
              [ match goal with
                | |- url_shape (?a :: ?l) = false =>
                    destruct (url_shape (a :: l)) eqn:Hh; [|reflexivity];
                    apply url_shape_head in Hh; discriminate
                end | ]).
      apply IH.
    + rewrite (redact_miss prev c s Hs).
      apply url_search_miss; [|apply IH].
      now apply redact_no_new_url.
Qed.

(** the token stands in the result when the text has a URL, and the text
    is unchanged when it has none *)
Lemma redact_puts_link s :
  forall prev,
    match search_from no_flags url_pattern prev s with
    | Some _ => contains (py "link") (redact prev s 0) = true
    | None => redact prev s 0 = s
    end.
Proof.
  induction s as [|c s IH]; intros prev.
  - cbn [search_from]. now rewrite (url_match_none prev [] url_shape_nil).
  - destruct (url_shape (c :: s)) eqn:Hs.
    + destruct (url_match_some prev _ Hs) as [n Hn].
      cbn [search_from sub_from]. rewrite Hn. reflexivity.
    + cbn [search_from]. rewrite (url_match_none prev _ Hs).
      rewrite (redact_miss prev c s Hs). specialize (IH (Some c)).
      destruct (search_from no_flags url_pattern (Some c) s) as [[i n]|].
      * cbn [contains]. rewrite IH. apply orb_true_r.
      * now rewrite IH.
Qed.

End Urls.

(** C8, as the specification states it, fails: the text below holds the
    well-formed URL [http://a.com], and the cleaned text still holds the
    scheme [http://], which the URL pattern leaves alone when no URL
    character follows it. *)
Lemma C8_scheme_can_remain :
  contains (py "http://") (clean_email_text (py "http://a.com http:// x")) = true.
Proof. vm_compute. reflexivity. Qed.

(** C8 (amended): the URL substitution of [convert_links_to_text]
    replaces every scheme-prefixed URL, that is [http://] or [https://]
    followed by at least one URL character: its result has no match of the
    URL pattern left, it contains the token [link] when the text had a
    match, and it is the text itself when it had none. *)
Theorem C8_urls_are_replaced :
  forall (E : Externals) (text : str),
    let result := sub no_flags url_pattern (py "link") text in
    search no_flags url_pattern result = None
    /\ match search no_flags url_pattern text with
       | Some _ => contains (py "link") result = true
       | None => result = text
       end.
Proof.
  intros E text result. split.
  - apply redact_leaves_no_url.
  - apply redact_puts_link.
Qed.

Example boilerplate_line_with_url_is_dropped :
  clean_email_text (py "Powered by http://a.com") = [].
Proof. vm_compute. reflexivity. Qed.

(** ** Phone numbers *)

Section Phones.

Context {E : Externals}.

Local Notation "'is_digit'" := (accepts no_flags Digit).
Local Notation "'is_sep'" := (accepts no_flags (OneOf [Ch (ch "-"); Ch (ch ".")])).

Lemma digit_is_word c : is_digit c = true -> isword c = true.
Proof.
  cbn [accepts]. intros H. unfold isword.
  now rewrite (isdecimal_isalnum c H).
Qed.

Lemma sep_cases c : is_sep c = true -> c = ch "-" \/ c = ch ".".
Proof.
  cbn [accepts existsb item_has lit_eq ignorecase no_flags].
  intros H. apply orb_true_iff in H as [H|H].
  - left. now apply eqc_eq.
  - apply orb_true_iff in H as [H|H]; [|discriminate]. right. now apply eqc_eq.
Qed.

Lemma sep_not_digit c : is_sep c = true -> is_digit c = false.
Proof.
  intros H. cbn [accepts].
  destruct (sep_cases c H) as [-> | ->]; now rewrite isdecimal_ascii.
Qed.

Lemma sep_not_word c : is_sep c = true -> isword c = false.
Proof.
  intros H. unfold isword.
  destruct (sep_cases c H) as [-> | ->]; now rewrite isalnum_ascii.
Qed.

Lemma digit_not_sep c : is_digit c = true -> is_sep c = false.
Proof.
  intros H. destruct (is_sep c) eqn:Hs; [|reflexivity].
  rewrite (sep_not_digit c Hs) in H. discriminate.
Qed.

Lemma not_word_not_digit c : isword c = false -> is_digit c = false.
Proof.
  intros H. destruct (is_digit c) eqn:Hd; [|reflexivity].
  rewrite (digit_is_word c Hd) in H. discriminate.
Qed.

Lemma last_char_cons c s : s <> [] -> last_char (c :: s) = last_char s.
Proof. destruct s; [contradiction|reflexivity]. Qed.

Lemma prev_after_cons prev c s : prev_after prev (c :: s) = prev_after (Some c) s.
Proof.
  unfold prev_after. destruct s as [|c' s]; [reflexivity|].
  rewrite last_char_cons by discriminate.
  destruct (last_char (c' :: s)) eqn:H; [reflexivity|].
  exfalso. clear -H. revert c' H. induction s as [|x s IH]; intros c' H.
  - discriminate.
  - rewrite last_char_cons in H by discriminate. now apply IH in H.
Qed.

Lemma hd_error_app_cons (b X : str) : b <> [] -> hd_error (b ++ X) = hd_error b.
Proof. destruct b; [contradiction|reflexivity]. Qed.

Section Locality.

Variable X : str.

Lemma local_boundary_last : local_before X [WordB].
Proof.
  intros b prev Hb _. cbn [match_here]. unfold at_boundary.
  rewrite (hd_error_app_cons b X Hb). split; [reflexivity|].
  intros n H. destruct (xorb _ _); [|discriminate].
  injection H as <-. destruct b; [contradiction|cbn; lia].
Qed.

Lemma local_boundary r : local_before X r -> local_before X (WordB :: r).
Proof.
  intros Hr b prev Hb Hlast. cbn [match_here]. unfold at_boundary.
  rewrite (hd_error_app_cons b X Hb).
  destruct (xorb _ _); [now apply Hr|].
  split; [reflexivity|discriminate].
Qed.

Lemma local_digits r n :
  local_before X r -> local_before X (Rep Digit n (Some n) true :: r).
Proof.
  intros Hr. induction n as [|n IH]; intros b prev Hb Hlast.
  - cbn [match_here]. rewrite !rep_exact_zero. now apply Hr.
  - destruct b as [|c b]; [contradiction|].
    cbn [match_here app List.length]. rewrite !rep_exact_cons.
    destruct (is_digit c) eqn:Hc; [|split; [reflexivity|discriminate]].
    destruct b as [|c' b].
    + cbn [last_char isword_opt] in Hlast.
      rewrite (not_word_not_digit c Hlast) in Hc. discriminate.
    + rewrite last_char_cons in Hlast by discriminate.
      destruct (IH (c' :: b) (Some c)) as [Heq Hlen]; [discriminate|exact Hlast|].
      cbn [match_here] in Heq, Hlen. rewrite Heq. split; [reflexivity|].
      intros m Hm. apply option_map_S_some in Hm as (m' & Hm & ->).
      apply Hlen in Hm. cbn [List.length] in *. lia.
Qed.

Lemma local_separator r :
  local_before X r ->
  (forall prev, match_here no_flags r prev X = None) ->
  (forall prev, match_here no_flags r prev [] = None) ->
  local_before X (Rep (OneOf [Ch (ch "-"); Ch (ch ".")]) 0 (Some 1%nat) true :: r).
Proof.
  intros Hr HX Hnil b prev Hb Hlast.
  destruct b as [|c b]; [contradiction|].
  cbn [match_here app List.length]. rewrite !rep_opt_cons.
  destruct (Hr (c :: b) prev Hb Hlast) as [Hskip Hskiplen].
  cbn [app] in Hskip. rewrite Hskip.
  destruct (is_sep c) eqn:Hc.
  - destruct b as [|c' b].
    + cbn [app]. rewrite HX, Hnil. cbn [option_map orelse].
      split; [reflexivity|exact Hskiplen].
    + rewrite last_char_cons in Hlast by discriminate.
      destruct (Hr (c' :: b) (Some c)) as [Htake Htakelen];
        [discriminate|exact Hlast|].
      rewrite Htake. split; [reflexivity|].
      intros n Hn. apply orelse_some in Hn as [Hn|Hn].
      * apply option_map_S_some in Hn as (n' & Hn & ->).
        apply Htakelen in Hn. cbn [List.length] in *. lia.
      * now apply Hskiplen.
  - split; [reflexivity|exact Hskiplen].
Qed.

End Locality.

Lemma phone_pattern_nodes :
  phone_pattern =
  [WordB; Rep Digit 3 (Some 3%nat) true;
   Rep (OneOf [Ch (ch "-"); Ch (ch ".")]) 0 (Some 1%nat) true;
   Rep Digit 3 (Some 3%nat) true;
   Rep (OneOf [Ch (ch "-"); Ch (ch ".")]) 0 (Some 1%nat) true;
   Rep Digit 4 (Some 4%nat) true; WordB].
Proof. reflexivity. Qed.

(** symbolic evaluation of the matcher on digits and separators *)
Ltac use_facts :=
  repeat match goal with
         | H : _ = true |- _ => rewrite H
         | H : _ = false |- _ => rewrite H
         end.

Ltac phone_eval :=
  repeat first
    [ rewrite rep_exact_cons
    | rewrite rep_exact_zero
    | rewrite rep_opt_cons
    | rewrite rep_exact_nil
    | rewrite rep_zero_nil
    | progress use_facts
    | progress unfold at_boundary
    | progress cbn [match_here option_map orelse app hd_error isword_opt xorb] ].

Ltac digit_facts c H :=
  pose proof (digit_is_word c H); pose proof (digit_not_sep c H).

Ltac sep_facts x H :=
  pose proof (sep_not_digit x H); pose proof (sep_not_word x H).

Lemma phone_nil prev : match_here no_flags phone_pattern prev [] = None.
Proof.
  rewrite phone_pattern_nodes. cbn [match_here].
  destruct (at_boundary prev []); reflexivity.
Qed.

Lemma phone_needs_digit prev c s :
  is_digit c = false -> match_here no_flags phone_pattern prev (c :: s) = None.
Proof.
  intros H. rewrite phone_pattern_nodes. cbn [match_here].
  destruct (at_boundary prev (c :: s)); [|reflexivity].
  now rewrite rep_exact_cons, H.
Qed.

Local Notation "'redact'" := (sub_from no_flags phone_pattern (py "phone")).

Lemma redact_skip a s :
  forall prev, redact prev (a ++ s) (List.length a) = redact (prev_after prev a) s 0.
Proof.
  induction a as [|c a IH]; intros prev; [reflexivity|].
  cbn [app List.length sub_from]. now rewrite IH, prev_after_cons.
Qed.

Lemma last_not_word_tail c pre :
  isword_opt (last_char (c :: pre)) = false -> isword_opt (last_char pre) = false.
Proof.
  destruct pre as [|c' pre]; [reflexivity|].
  now rewrite last_char_cons by discriminate.
Qed.

(** the substitution on what precedes the number does not depend on it *)
Lemma redact_before X pre :
  local_before X phone_pattern ->
  forall skip prev,
    isword_opt (last_char pre) = false ->
    (skip = O \/ skip < List.length pre)%nat ->
    redact prev (pre ++ X) skip
    = redact prev pre skip ++ redact (prev_after prev pre) X 0.
Proof.
  intros HX.
  induction pre as [|c pre IH]; intros skip prev Hlast Hskip.
  - destruct Hskip as [-> | Hskip]; [|cbn in Hskip; lia].
    cbn [app sub_from]. now rewrite phone_nil.
  - pose proof (last_not_word_tail c pre Hlast) as Hlast'.
    rewrite prev_after_cons. destruct skip as [|skip].
    + destruct (HX (c :: pre) prev) as [Heq Hlen];
        [discriminate|exact Hlast|].
      cbn [app] in Heq. cbn [app sub_from]. rewrite Heq.
      destruct (match_here no_flags phone_pattern prev (c :: pre)) as [[|n]|].
      * rewrite (IH O (Some c) Hlast') by now left.
        now rewrite <- app_assoc.
      * specialize (Hlen (S n) eq_refl). cbn [List.length] in Hlen.
        rewrite (IH n (Some c) Hlast') by (right; lia).
        now rewrite <- app_assoc.
      * now rewrite (IH O (Some c) Hlast') by now left.
    + cbn [app sub_from]. apply IH; [exact Hlast'|].
      destruct Hskip as [Hskip|Hskip]; [discriminate|].
      cbn [List.length] in Hskip. right. lia.
Qed.

Section OneNumber.

Variables a1 a2 a3 b1 b2 b3 c1 c2 c3 c4 : char.
Variables s1 s2 post : str.

Hypothesis Ha1 : is_digit a1 = true.
Hypothesis Ha2 : is_digit a2 = true.
Hypothesis Ha3 : is_digit a3 = true.
Hypothesis Hb1 : is_digit b1 = true.
Hypothesis Hb2 : is_digit b2 = true.
Hypothesis Hb3 : is_digit b3 = true.
Hypothesis Hc1 : is_digit c1 = true.
Hypothesis Hc2 : is_digit c2 = true.
Hypothesis Hc3 : is_digit c3 = true.
Hypothesis Hc4 : is_digit c4 = true.
Hypothesis Hs1 : s1 = [] \/ exists x, s1 = [x] /\ is_sep x = true.
Hypothesis Hs2 : s2 = [] \/ exists x, s2 = [x] /\ is_sep x = true.
Hypothesis Hpost : isword_opt (hd_error post) = false.

Local Notation "'number'" :=
  ([a1; a2; a3] ++ s1 ++ [b1; b2; b3] ++ s2 ++ [c1; c2; c3; c4]).

Ltac all_facts :=
  digit_facts a1 Ha1; digit_facts a2 Ha2; digit_facts a3 Ha3;
  digit_facts b1 Hb1; digit_facts b2 Hb2; digit_facts b3 Hb3;
  digit_facts c1 Hc1; digit_facts c2 Hc2; digit_facts c3 Hc3;
  digit_facts c4 Hc4;
  pose proof Ha1; pose proof Ha2; pose proof Ha3; pose proof Hb1;
  pose proof Hb2; pose proof Hb3; pose proof Hc1; pose proof Hc2;
  pose proof Hc3; pose proof Hc4; pose proof Hpost.

Ltac layouts :=
  destruct Hs1 as [-> | (x1 & -> & Hx1)]; destruct Hs2 as [-> | (x2 & -> & Hx2)];
  try sep_facts x1 Hx1; try sep_facts x2 Hx2.

(** the number, met after a separator, is not the last group of a match *)
Lemma number_is_no_last_group prev :
  match_here no_flags [Rep Digit 4 (Some 4%nat) true; WordB] prev (number ++ post)
  = None.
Proof. all_facts. layouts; phone_eval; reflexivity. Qed.

(** nor its last two groups *)
Lemma number_is_no_last_groups prev :
  match_here no_flags
    [Rep Digit 3 (Some 3%nat) true;
     Rep (OneOf [Ch (ch "-"); Ch (ch ".")]) 0 (Some 1%nat) true;
     Rep Digit 4 (Some 4%nat) true; WordB] prev (number ++ post)
  = None.
Proof. all_facts. layouts; phone_eval; reflexivity. Qed.

(** the pattern matches the whole number at a word boundary *)
Lemma number_matches prev :
  isword_opt prev = false ->
  match_here no_flags phone_pattern prev (number ++ post)
  = Some (List.length number).
Proof.
  intros Hprev. rewrite phone_pattern_nodes. all_facts.
  layouts; phone_eval; reflexivity.
Qed.

Lemma phone_local : local_before (number ++ post) phone_pattern.
Proof.
  rewrite phone_pattern_nodes.
  apply local_boundary, local_digits, local_separator;
    [ apply local_digits, local_separator;
      [ apply local_digits, local_boundary_last
      | apply number_is_no_last_group
      | reflexivity ]
    | apply number_is_no_last_groups
    | reflexivity ].
Qed.

(** nor does the substitution on what follows it *)
Lemma redact_after prev prev' :
  redact prev post 0 = redact prev' post 0.
Proof.
  destruct post as [|c rest].
  - cbn [sub_from]. now rewrite !phone_nil.
  - cbn [hd_error isword_opt] in Hpost.
    cbn [sub_from].
    now rewrite !phone_needs_digit by (apply not_word_not_digit; exact Hpost).
Qed.

Lemma redact_number pre :
  isword_opt (last_char pre) = false ->
  sub no_flags phone_pattern (py "phone") (pre ++ number ++ post)
  = sub no_flags phone_pattern (py "phone") pre ++ py "phone"
    ++ sub no_flags phone_pattern (py "phone") post.
Proof.
  intros Hlast. unfold sub.
  rewrite (redact_before (number ++ post) pre phone_local O None Hlast) by now left.
  f_equal.
  assert (Hprev : isword_opt (prev_after None pre) = false).
  { unfold prev_after. now destruct (last_char pre). }
  pose proof (number_matches (prev_after None pre) Hprev) as Hm.
  change (number ++ post)
    with (a1 :: ([a2; a3] ++ s1 ++ [b1; b2; b3] ++ s2 ++ [c1; c2; c3; c4]) ++ post)
    in Hm |- *.
  change (List.length number)
    with (S (List.length ([a2; a3] ++ s1 ++ [b1; b2; b3] ++ s2 ++ [c1; c2; c3; c4])))
    in Hm.
  cbn [sub_from]. rewrite Hm, redact_skip. f_equal. apply redact_after.
Qed.

End OneNumber.

End Phones.

Lemma digits_three {E : Externals} (d : str) :
  digits 3 d ->
  exists x y z, d = [x; y; z]
    /\ accepts no_flags Digit x = true /\ accepts no_flags Digit y = true
    /\ accepts no_flags Digit z = true.
Proof.
  intros [Hlen Hall].
  destruct d as [|x [|y [|z [|w d]]]]; try discriminate.
  cbn [forallb] in Hall.
  apply andb_true_iff in Hall as [Hx Hall].
  apply andb_true_iff in Hall as [Hy Hall].
  apply andb_true_iff in Hall as [Hz _].
  exists x, y, z. auto.
Qed.

Lemma digits_four {E : Externals} (d : str) :
  digits 4 d ->
  exists x y z w, d = [x; y; z; w]
    /\ accepts no_flags Digit x = true /\ accepts no_flags Digit y = true
    /\ accepts no_flags Digit z = true /\ accepts no_flags Digit w = true.
Proof.
  intros [Hlen Hall].
  destruct d as [|x [|y [|z [|w [|v d]]]]]; try discriminate.
  cbn [forallb] in Hall.
  apply andb_true_iff in Hall as [Hx Hall].
  apply andb_true_iff in Hall as [Hy Hall].
  apply andb_true_iff in Hall as [Hz Hall].
  apply andb_true_iff in Hall as [Hw _].
  exists x, y, z, w. auto 6.
Qed.

Lemma separator_cases {E : Externals} (s : str) :
  separator s ->
  s = [] \/ exists x, s = [x]
    /\ accepts no_flags (OneOf [Ch (ch "-"); Ch (ch ".")]) x = true.
Proof.
  intros [-> | [-> | ->]]; [now left| |]; right; eexists; split; reflexivity.
Qed.

(** C10, as stated for [clean_email_text], fails: the ten digits below
    stand between word boundaries and the phone pattern matches them,
    but the e-mail substitution comes first and the digits leave as part
    of the token [email]. *)
Lemma C10_digits_of_an_address_become_email :
  search no_flags phone_pattern (py "5551234567@example.com") = Some (0, 10)%nat
  /\ clean_email_text (py "5551234567@example.com") = py "email".
Proof. split; vm_compute; reflexivity. Qed.

(** C10 (amended): in the text that reaches the phone substitution of
    [convert_links_to_text], every run of three digits, three digits and
    four digits whose two separator positions hold, independently, a
    hyphen, a dot or nothing, and which stands between word boundaries,
    is replaced by the token [phone]; what precedes and what follows it
    is rewritten as it would be on its own. *)
Theorem C10_phone_shapes_are_replaced :
  forall (E : Externals) (pre post d1 s1 d2 s2 d3 : str),
    digits 3 d1 -> separator s1 -> digits 3 d2 -> separator s2 -> digits 4 d3 ->
    isword_opt (last_char pre) = false ->
    isword_opt (hd_error post) = false ->
    sub no_flags phone_pattern (py "phone") (pre ++ (d1 ++ s1 ++ d2 ++ s2 ++ d3) ++ post)
    = sub no_flags phone_pattern (py "phone") pre ++ py "phone"
      ++ sub no_flags phone_pattern (py "phone") post.
Proof.
  intros E pre post d1 s1 d2 s2 d3 H1 Hs1 H2 Hs2 H3 Hpre Hpost.
  apply digits_three in H1 as (a1 & a2 & a3 & -> & Ha1 & Ha2 & Ha3).
  apply digits_three in H2 as (b1 & b2 & b3 & -> & Hb1 & Hb2 & Hb3).
  apply digits_four in H3 as (c1 & c2 & c3 & c4 & -> & Hc1 & Hc2 & Hc3 & Hc4).
  apply separator_cases in Hs1. apply separator_cases in Hs2.
  now apply redact_number.
Qed.

Lemma C10_phone_shapes_are_replaced_witness :
  sub no_flags phone_pattern (py "phone")
    (py "call " ++ (py "555" ++ py "-" ++ py "123" ++ py "." ++ py "4567") ++ py " now")
  = sub no_flags phone_pattern (py "phone") (py "call ") ++ py "phone"
    ++ sub no_flags phone_pattern (py "phone") (py " now").
Proof.
  apply (@C10_phone_shapes_are_replaced reference).
  - split; reflexivity.
  - right. left. reflexivity.
  - split; reflexivity.
  - right. right. reflexivity.
  - split; reflexivity.
  - reflexivity.
  - reflexivity.
Defined.

Example mixed_separators_are_redacted :
  clean_email_text (py "call 555-123.4567 or 555123-4567 now")
  = py "call phone or phone now".
Proof. vm_compute. reflexivity. Qed.

(** ** Cleaning plain text *)

Lemma plain_char_spec (c : char) :
  plain_char c = true <-> (65 <= c <= 90 \/ 97 <= c <= 122 \/ c = 32).
Proof.
  unfold plain_char, ascii_isalpha, between, eqc, SPC.
  rewrite !orb_true_iff, !andb_true_iff, !N.leb_le, N.eqb_eq. tauto.
Qed.

Lemma lower_ascii_plain (c : char) :
  plain_char c = true -> plain_char (lower_ascii c) = true.
Proof.
  intros H. unfold lower_ascii, between.
  destruct (N.leb_spec 65 c); destruct (N.leb_spec c 90); cbn [andb];
    try exact H.
  apply plain_char_spec. lia.
Qed.

Lemma lower_ascii_not_plain (x : char) :
  plain_char x = false -> lower_ascii x = x.
Proof.
  intros H. unfold lower_ascii, between.
  destruct (N.leb_spec 65 x); destruct (N.leb_spec x 90); cbn [andb];
    try reflexivity.
  assert (Hp : plain_char x = true) by (apply plain_char_spec; lia).
  congruence.
Qed.

Lemma sre_lower_plain (c : char) :
  plain_char c = true -> sre_lower c = lower_ascii c.
Proof.
  intros H. apply plain_char_spec in H. unfold sre_lower, eqc.
  destruct (N.eqb_spec c 304); [lia|]. destruct (N.eqb_spec c 8490); [lia|].
  reflexivity.
Qed.

Lemma plain_differs (c x : char) :
  plain_char c = true -> plain_char x = false -> eqc c x = false.
Proof. intros Hc Hx. apply eqc_neq. intros ->. congruence. Qed.

(** a literal that is neither a letter nor the space is not met in plain
    text, with or without IGNORECASE *)
Lemma literal_not_plain (ic : bool) (x c : char) :
  plain_char c = true -> plain_char x = false -> lit_eq ic x c = false.
Proof.
  intros Hc Hx. unfold lit_eq. destruct ic; [|now apply plain_differs].
  cbv zeta. rewrite (lower_ascii_not_plain x Hx), (sre_lower_plain c Hc).
  rewrite (plain_differs (lower_ascii c) x (lower_ascii_plain c Hc) Hx).
  rewrite (eqc_sym x 105), (plain_differs 105 x eq_refl Hx).
  rewrite (eqc_sym x 115), (plain_differs 115 x eq_refl Hx).
  reflexivity.
Qed.

Lemma existsb_plain (f : char -> bool) (s : str) :
  (forall c, plain_char c = true -> f c = false) ->
  forallb plain_char s = true -> existsb f s = false.
Proof.
  intros Hf. induction s as [|c s IH]; intros H; [reflexivity|].
  cbn [forallb] in H. apply andb_true_iff in H as [Hc H].
  cbn [existsb]. now rewrite (Hf c Hc), (IH H).
Qed.

Lemma plain_lacks (x : char) (s : str) :
  plain_char x = false -> forallb plain_char s = true -> contains_char x s = false.
Proof.
  intros Hx. apply existsb_plain. intros c Hc.
  rewrite eqc_sym. now apply plain_differs.
Qed.

Lemma forallb_tail (f : char -> bool) (c : char) (s : str) :
  forallb f (c :: s) = true -> forallb f s = true.
Proof. cbn [forallb]. intros H. now apply andb_true_iff in H. Qed.

(** ** [str.replace] without an occurrence *)

Lemma starts_with_needs (old s : str) (x : char) :
  List.In x old -> starts_with old s = true -> contains_char x s = true.
Proof.
  unfold contains_char. revert s.
  induction old as [|o old IH]; intros s Hin H; [contradiction|].
  destruct s as [|c s]; [discriminate|].
  cbn [starts_with] in H. apply andb_true_iff in H as [Hoc H].
  cbn [existsb]. destruct Hin as [-> | Hin].
  - now rewrite Hoc.
  - rewrite (IH s Hin H). apply orb_true_r.
Qed.

Lemma replace_without (x : char) (old new s : str) :
  List.In x old -> contains_char x s = false -> replace old new s = s.
Proof.
  intros Hin. destruct old as [|o old]; [contradiction|].
  unfold replace. induction s as [|c s IH]; intros H; [reflexivity|].
  cbn [replace_go].
  destruct (starts_with (o :: old) (c :: s)) eqn:Hs.
  - rewrite (starts_with_needs (o :: old) (c :: s) x Hin Hs) in H. discriminate.
  - unfold contains_char in H. cbn [existsb] in H.
    apply orb_false_iff in H as [_ H]. now rewrite (IH H).
Qed.

(** ** Trimming *)

Lemma lstrip_keeps (s : str) :
  match hd_error s with Some c => isspace c | None => false end = false ->
  lstrip s = s.
Proof. destruct s as [|c s]; [reflexivity|]. cbn [hd_error lstrip]. now intros ->. Qed.

Lemma hd_error_rev (s : str) : hd_error (rev s) = last_char s.
Proof.
  induction s as [|c s IH]; [reflexivity|].
  cbn [rev]. destruct s as [|c' s]; [reflexivity|].
  rewrite last_char_cons by discriminate. rewrite <- IH.
  destruct (rev (c' :: s)) eqn:Hr; [|reflexivity].
  apply (f_equal (@List.length char)) in Hr.
  rewrite length_rev in Hr. discriminate.
Qed.

Lemma strip_keeps (s : str) :
  match hd_error s with Some c => isspace c | None => false end = false ->
  match last_char s with Some c => isspace c | None => false end = false ->
  strip s = s.
Proof.
  intros Hh Hl. unfold strip, rstrip. rewrite (lstrip_keeps s Hh).
  rewrite lstrip_keeps by (now rewrite hd_error_rev).
  apply rev_involutive.
Qed.

Lemma letter_not_space (c : char) :
  plain_char c = true -> eqc c SPC = false -> isspace c = false.
Proof.
  intros Hp Hs. apply plain_char_spec in Hp. apply eqc_neq in Hs. unfold SPC in Hs.
  unfold isspace, between, eqc.
  repeat match goal with
         | |- context [N.eqb ?a ?b] => destruct (N.eqb_spec a b); try lia
         | |- context [N.leb ?a ?b] => destruct (N.leb_spec a b); try lia
         end; reflexivity.
Qed.

Lemma last_char_in (f : char -> bool) (s : str) (c : char) :
  forallb f s = true -> last_char s = Some c -> f c = true.
Proof.
  induction s as [|x s IH]; [discriminate|]. intros H Hl.
  cbn [forallb] in H. apply andb_true_iff in H as [Hx H].
  destruct s as [|y s]; [injection Hl as <-; exact Hx|].
  rewrite last_char_cons in Hl by discriminate. now apply IH.
Qed.

Lemma plain_strip (s : str) :
  forallb plain_char s = true ->
  is_space_opt (hd_error s) = false ->
  is_space_opt (last_char s) = false ->
  strip s = s.
Proof.
  intros Hp Hh Hl. apply strip_keeps.
  - destruct s as [|c s]; [reflexivity|]. cbn [hd_error is_space_opt] in *.
    cbn [forallb] in Hp. apply andb_true_iff in Hp as [Hc _].
    now apply letter_not_space.
  - destruct (last_char s) as [c|] eqn:Hc; [|reflexivity].
    cbn [is_space_opt] in Hl.
    apply letter_not_space; [|exact Hl].
    exact (last_char_in plain_char s c Hp Hc).
Qed.

Section Plain.

Context {E : Externals}.

Variable s : str.
Hypothesis Hplain : forallb plain_char s = true.

Lemma plain_no_literal fl x :
  plain_char x = false -> existsb (accepts fl (Lit x)) s = false.
Proof.
  intros Hx. apply existsb_plain; [|exact Hplain].
  intros c Hc. cbn [accepts]. now apply literal_not_plain.
Qed.

Lemma plain_no_member fl x :
  plain_char x = false -> existsb (accepts fl (OneOf [Ch x])) s = false.
Proof.
  intros Hx. apply existsb_plain; [|exact Hplain].
  intros c Hc. cbn [accepts existsb item_has].
  now rewrite (literal_not_plain (ignorecase fl) x c Hc Hx).
Qed.

Lemma plain_is_ascii : forallb is_ascii s = true.
Proof.
  revert Hplain. clear. induction s as [|c s' IH]; intros H; [reflexivity|].
  cbn [forallb] in *. apply andb_true_iff in H as [Hc H].
  rewrite (IH H), andb_true_r.
  apply plain_char_spec in Hc. unfold is_ascii. apply N.ltb_lt. lia.
Qed.

Lemma plain_no_digit fl : existsb (accepts fl Digit) s = false.
Proof.
  apply existsb_plain; [|exact Hplain].
  intros c Hc. cbn [accepts]. apply plain_char_spec in Hc.
  rewrite isdecimal_ascii by (unfold is_ascii; apply N.ltb_lt; lia).
  unfold ascii_isdigit, between.
  destruct (N.leb_spec 48 c); destruct (N.leb_spec c 57); try reflexivity; lia.
Qed.

Ltac in_mandatory := vm_compute; repeat first [left; reflexivity | right].

(** a substitution whose pattern needs a literal foreign to plain text *)
Lemma plain_sub_literal fl r repl x :
  List.In (Lit x) (mandatory r) -> plain_char x = false -> sub fl r repl s = s.
Proof.
  intros Hin Hx. unfold sub.
  apply (sub_without fl (Lit x) r repl s Hin (plain_no_literal fl x Hx)).
Qed.

Lemma plain_sub_member fl r repl x :
  List.In (OneOf [Ch x]) (mandatory r) -> plain_char x = false ->
  sub fl r repl s = s.
Proof.
  intros Hin Hx. unfold sub.
  apply (sub_without fl (OneOf [Ch x]) r repl s Hin (plain_no_member fl x Hx)).
Qed.

Lemma plain_decode : decode_html_entities s = s.
Proof.
  unfold decode_html_entities.
  rewrite (plain_lacks (ch "<") s eq_refl Hplain). cbn [andb].
  unfold decode_entities_manually, html_entities. cbn [fold_left fst snd].
  repeat (rewrite (replace_without (ch "&") _ _ s);
          [|now left|exact (plain_lacks (ch "&") s eq_refl Hplain)]).
  reflexivity.
Qed.

Lemma plain_tags : remove_html_tags s = s.
Proof.
  unfold remove_html_tags.
  rewrite (plain_sub_literal no_flags tag_pattern (py " ") (ch "<"));
    [|in_mandatory|reflexivity].
  rewrite (plain_sub_literal DOTALL_IGNORECASE script_pattern [] (ch "<"));
    [|in_mandatory|reflexivity].
  rewrite (plain_sub_literal DOTALL_IGNORECASE style_pattern [] (ch "<"));
    [|in_mandatory|reflexivity].
  apply (plain_sub_literal DOTALL css_comment_pattern [] (ch "/"));
    [in_mandatory|reflexivity].
Qed.

Lemma plain_links : convert_links_to_text s = s.
Proof.
  unfold convert_links_to_text.
  rewrite (plain_sub_literal no_flags url_pattern (py "link") (ch ":"));
    [|in_mandatory|reflexivity].
  rewrite (plain_sub_literal no_flags www_pattern (py "link") (ch "."));
    [|in_mandatory|reflexivity].
  rewrite (plain_sub_literal no_flags email_pattern (py "email") (ch "@"));
    [|in_mandatory|reflexivity].
  replace (sub no_flags phone_pattern (py "phone") s) with s.
  2:{ symmetry. unfold sub.
      apply (sub_without no_flags Digit phone_pattern _ s);
        [in_mandatory|apply plain_no_digit]. }
  rewrite (plain_sub_literal IGNORECASE bracket_link_pattern (py "link") (ch "["));
    [|in_mandatory|reflexivity].
  apply (plain_sub_literal IGNORECASE anchor_pattern (py "link") (ch "<"));
    [in_mandatory|reflexivity].
Qed.

Lemma plain_one_line : split_lines s = [s].
Proof. apply split_lines_one_line. exact (plain_lacks NL s eq_refl Hplain). Qed.

Lemma plain_signatures : is_signature s = false -> remove_signatures s = s.
Proof.
  intros H. unfold remove_signatures. rewrite plain_one_line.
  cbn [filter]. now rewrite H.
Qed.

Lemma plain_punctuation : clean_punctuation s = s.
Proof.
  unfold clean_punctuation.
  rewrite (plain_sub_member no_flags _ (py "!") (ch "!"));
    [|in_mandatory|reflexivity].
  rewrite (plain_sub_member no_flags _ (py "?") (ch "?"));
    [|in_mandatory|reflexivity].
  rewrite (plain_sub_member no_flags _ (py ".") (ch "."));
    [|in_mandatory|reflexivity].
  apply (plain_sub_literal no_flags _ (py ",") (ch ","));
    [in_mandatory|reflexivity].
Qed.

Lemma plain_unicode : normalize_unicode s = s.
Proof.
  unfold normalize_unicode. rewrite (nfkc_ascii s plain_is_ascii).
  repeat (rewrite (replace_without DQ [DQ] [DQ] s);
          [|now left|exact (plain_lacks DQ s eq_refl Hplain)]).
  rewrite (replace_without (ch ",") _ [SQ] s);
    [|now left|exact (plain_lacks (ch ",") s eq_refl Hplain)].
  rewrite (replace_without 8212 [8212] _ s);
    [|now left|exact (plain_lacks 8212 s eq_refl Hplain)].
  apply (replace_without 8211 [8211] _ s);
    [now left|exact (plain_lacks 8211 s eq_refl Hplain)].
Qed.

End Plain.

Section PlainWhitespace.

Context {E : Externals}.

(** single spaces are rewritten to themselves *)
Lemma single_spaces_kept (s : str) :
  single_spaced s = true ->
  forall prev, sub_from no_flags [Plus (Lit SPC)] (py " ") prev s 0 = s.
Proof.
  induction s as [|c s IH]; intros Hs prev; [reflexivity|].
  assert (Hs' : single_spaced s = true).
  { cbn [single_spaced] in Hs. destruct s as [|c' s]; [reflexivity|].
    now apply andb_true_iff in Hs. }
  cbn [sub_from match_here Plus rep accepts lit_eq ignorecase no_flags
       option_map pred andb].
  destruct (eqc c SPC) eqn:Hc.
  - apply eqc_eq in Hc. subst c.
    assert (Hnext : rep no_flags (Lit SPC) (match_here no_flags []) true 0 None
                      (Some SPC) s = Some O).
    { destruct s as [|c' s]; [reflexivity|].
      cbn [single_spaced] in Hs. apply andb_true_iff in Hs as [Hs _].
      rewrite eqc_refl in Hs. cbn [andb negb] in Hs.
      apply negb_true_iff in Hs.
      cbn [rep accepts lit_eq ignorecase no_flags match_here].
      now rewrite Hs. }
    cbn [match_here] in Hnext. rewrite Hnext. cbn [option_map orelse].
    change (py " ") with [SPC]. cbn [app andb]. f_equal.
    exact (IH Hs' (Some SPC)).
  - now rewrite (IH Hs').
Qed.

Lemma plain_whitespace (s : str) :
  forallb plain_char s = true ->
  single_spaced s = true ->
  is_space_opt (hd_error s) = false ->
  is_space_opt (last_char s) = false ->
  normalize_whitespace s = s.
Proof.
  intros Hp Hs Hh Hl. unfold normalize_whitespace.
  unfold sub at 2. rewrite (single_spaces_kept s Hs).
  rewrite (plain_sub_literal s Hp no_flags _ [NL] NL);
    [|vm_compute; right; left; reflexivity|reflexivity].
  rewrite (plain_one_line s Hp). cbn [map].
  rewrite (plain_strip s Hp Hh Hl).
  destruct s; reflexivity.
Qed.

(** plain text is a fixed point of the cleaner *)
Lemma clean_plain_text (s : str) :
  plain_text s = true -> clean_email_text s = s.
Proof.
  unfold plain_text. intros H.
  apply andb_true_iff in H as [H Hsig]. apply negb_true_iff in Hsig.
  apply andb_true_iff in H as [H Hl]. apply negb_true_iff in Hl.
  apply andb_true_iff in H as [H Hh]. apply negb_true_iff in Hh.
  apply andb_true_iff in H as [Hp Hs].
  unfold clean_email_text, clean_email_text_with.
  destruct (is_empty s) eqn:Hempty; [destruct s; [reflexivity|discriminate]|].
  cbn [own_stages run_decode run_tags run_links run_signatures run_whitespace
       run_punctuation run_unicode].
  rewrite (plain_decode s Hp), (plain_tags s Hp), (plain_links s Hp),
    (plain_signatures s Hp Hsig), (plain_whitespace s Hp Hs Hh Hl),
    (plain_punctuation s Hp), (plain_unicode s Hp).
  exact (plain_strip s Hp Hh Hl).
Qed.

End PlainWhitespace.

(** C4 (amended): on a line of plain text (ASCII letters, words
    separated by single spaces, no space at either end, no boilerplate
    pattern matching) [clean_email_text] returns the text itself, so
    cleaning it twice equals cleaning it once. *)
Theorem C4_idempotent_on_plain_text :
  forall (E : Externals) (s : str),
    plain_text s = true ->
    clean_email_text s = s
    /\ clean_email_text (clean_email_text s) = clean_email_text s.
Proof.
  intros E s H. pose proof (clean_plain_text s H) as Hs.
  split; [exact Hs|]. now rewrite Hs.
Qed.

Lemma C4_idempotent_on_plain_text_witness :
  clean_email_text (py "Meeting tomorrow") = py "Meeting tomorrow"
  /\ clean_email_text (clean_email_text (py "Meeting tomorrow"))
     = clean_email_text (py "Meeting tomorrow").
Proof.
  apply (@C4_idempotent_on_plain_text reference (py "Meeting tomorrow")).
  vm_compute. reflexivity.
Defined.

(** * Further properties of the code *)

(** ** What [strip] leaves *)

Lemma lstrip_head (s : str) :
  match hd_error (lstrip s) with Some c => isspace c | None => false end = false.
Proof.
  induction s as [|c s IH]; [reflexivity|].
  cbn [lstrip]. destruct (isspace c) eqn:Hc; [exact IH|].
  cbn [hd_error]. exact Hc.
Qed.

Lemma lstrip_app_stop (a b : str) (c : char) :
  isspace c = false -> lstrip (a ++ c :: b) = lstrip a ++ c :: b.
Proof.
  intros Hc. induction a as [|x a IH]; cbn [app lstrip].
  - now rewrite Hc.
  - destruct (isspace x); [exact IH|reflexivity].
Qed.

Lemma last_char_rev (s : str) : last_char (rev s) = hd_error s.
Proof. rewrite <- (rev_involutive s) at 2. symmetry. apply hd_error_rev. Qed.

Lemma rstrip_last (s : str) :
  match last_char (rstrip s) with Some c => isspace c | None => false end = false.
Proof. unfold rstrip. rewrite last_char_rev. apply lstrip_head. Qed.

Lemma rstrip_head (s : str) :
  match hd_error s with Some c => isspace c | None => false end = false ->
  match hd_error (rstrip s) with Some c => isspace c | None => false end = false.
Proof.
  destruct s as [|c s]; [reflexivity|]. cbn [hd_error]. intros Hc.
  unfold rstrip. cbn [rev]. rewrite (lstrip_app_stop (rev s) [] c Hc).
  rewrite rev_app_distr. cbn [rev app hd_error]. exact Hc.
Qed.

(** trimming a trimmed text changes nothing *)
Lemma strip_trimmed (s : str) : trimmed (strip s).
Proof.
  unfold trimmed. apply strip_keeps.
  - unfold strip. apply rstrip_head, lstrip_head.
  - unfold strip. apply rstrip_last.
Qed.

Lemma trimmed_nil : trimmed [].
Proof. reflexivity. Qed.

Lemma on_exception_trimmed (text : str) : trimmed (on_exception text).
Proof.
  unfold on_exception. destruct (is_empty text);
    [apply trimmed_nil|apply strip_trimmed].
Qed.

(** X1: whatever the stages do, return or raise, the text
    [clean_email_text] returns has no white space at its start or at its
    end: trimming it again changes nothing. *)
Theorem clean_email_text_is_trimmed :
  forall (S : stages) (text : str), trimmed (clean_email_text_with S text).
Proof.
  intros S text. unfold clean_email_text_with.
  destruct (is_empty text); [apply trimmed_nil|].
  repeat match goal with
         | |- trimmed (match ?f ?t with Some _ => _ | None => _ end) =>
             destruct (f t); [|apply on_exception_trimmed]
         end.
  apply strip_trimmed.
Qed.

(** ** The subject prefix *)

Section SubjectPrefix.

Context {E : Externals}.

(** a pattern anchored at the start matches nowhere else, so after the
    first character a substitution only finishes dropping its match *)
Lemma anchored_sub_tail fl r repl (s : str) :
  forall c skip, sub_from fl (Bol :: r) repl (Some c) s skip = skipn skip s.
Proof.
  induction s as [|x s IH]; intros c skip.
  - destruct skip; reflexivity.
  - destruct skip as [|skip]; cbn [sub_from match_here skipn].
    + now rewrite IH.
    + apply IH.
Qed.

Lemma anchored_sub fl r (s : str) :
  sub fl (Bol :: r) [] s = skipn (match_length fl (Bol :: r) s) s.
Proof.
  unfold sub, match_length. destruct s as [|c s].
  - cbn [sub_from]. destruct (match_here fl (Bol :: r) None []) as [[|n]|]; reflexivity.
  - cbn [sub_from].
    destruct (match_here fl (Bol :: r) None (c :: s)) as [[|n]|];
      cbn [app skipn]; rewrite anchored_sub_tail; reflexivity.
Qed.

(** X2: [clean_subject] removes the match of the prefix pattern at the
    very start of the subject, if there is one, and nothing further
    inside; it cleans the rest as a body and substitutes [No Subject]
    when nothing is left (also for the empty subject). *)
Theorem clean_subject_strips_one_prefix :
  forall (subject : str),
    clean_subject subject =
    let rest := skipn (match_length IGNORECASE subject_prefix_pattern subject) subject in
    let cleaned := clean_email_text rest in
    if is_empty cleaned then py "No Subject" else cleaned.
Proof.
  intros subject. unfold clean_subject.
  destruct (is_empty subject) eqn:He.
  - destruct subject; [reflexivity|discriminate].
  - change subject_prefix_pattern with (Bol :: tl subject_prefix_pattern).
    now rewrite anchored_sub.
Qed.

End SubjectPrefix.

(** ** The sender *)

Section SenderMore.

Context {E : Externals}.

Lemma contains_char_accepts (x : char) (s : str) :
  existsb (accepts no_flags (Lit x)) s = contains_char x s.
Proof.
  unfold contains_char. induction s as [|c s IH]; [reflexivity|].
  cbn [existsb accepts lit_eq ignorecase no_flags]. now rewrite IH, eqc_sym.
Qed.

(** X3: a sender without [<], or without [>], is returned as it is;
    only the empty sender becomes [Unknown Sender]. *)
Theorem clean_sender_passes_through :
  forall (sender : str),
    contains_char (ch "<") sender = false \/ contains_char (ch ">") sender = false ->
    clean_sender sender = if is_empty sender then py "Unknown Sender" else sender.
Proof.
  intros sender H. unfold clean_sender.
  destruct (is_empty sender); [reflexivity|].
  assert (Hs : search no_flags angle_address_pattern sender = None).
  { unfold search. destruct H as [H|H].
    - apply (search_without no_flags (Lit (ch "<"))).
      + left. reflexivity.
      + now rewrite contains_char_accepts.
    - apply (search_without no_flags (Lit (ch ">"))).
      + right. right. left. reflexivity.
      + now rewrite contains_char_accepts. }
  rewrite Hs. now destruct (contains_char (ch "@") sender).
Qed.

End SenderMore.

Lemma clean_sender_passes_through_witness :
  clean_sender (py "jane@example.com") = py "jane@example.com".
Proof.
  apply (@clean_sender_passes_through reference (py "jane@example.com")).
  left. reflexivity.
Defined.

(** ** Bounds of a match *)

Section Bounds.

Context {E : Externals}.
Variable fl : flags.

Lemma rep_bounded a k g b :
  bounded b k -> forall lo hi, bounded b (rep fl a k g lo hi).
Proof.
  intros Hk lo hi prev s. revert lo hi prev.
  induction s as [|c s IH]; intros lo hi prev n H.
  - cbn [rep] in H. destruct lo; [|discriminate]. exact (Hk _ _ _ H).
  - cbn [rep] in H.
    assert (Hstop : match lo with O => k prev (c :: s) | S _ => None end = Some n ->
                    (b <= n <= List.length (c :: s))%nat).
    { destruct lo; [|discriminate]. apply Hk. }
    assert (Htake : option_map S (rep fl a k g (pred lo) (option_map pred hi) (Some c) s)
                    = Some n -> (b <= n <= List.length (c :: s))%nat).
    { intros Ht. apply option_map_S_some in Ht as (n' & Ht & ->).
      apply IH in Ht. cbn [List.length]. lia. }
    destruct (accepts fl a c && match hi with Some O => false | _ => true end);
      [|now apply Hstop].
    destruct g; apply orelse_some in H as [H|H]; auto.
Qed.

Lemma word_bounded p k b : bounded b k -> bounded b (word fl p k).
Proof.
  intros Hk. induction p as [|x p IH]; intros prev s n H; [exact (Hk _ _ _ H)|].
  cbn [word] in H. destruct s as [|c s]; [discriminate|].
  destruct (lit_eq (ignorecase fl) x c); [|discriminate].
  apply option_map_S_some in H as (n' & H & ->).
  apply IH in H. cbn [List.length]. lia.
Qed.

Lemma first_alt_bounded alts k b : bounded b k -> bounded b (first_alt fl alts k).
Proof.
  intros Hk. induction alts as [|p alts IH]; intros prev s n H; [discriminate|].
  cbn [first_alt] in H. apply orelse_some in H as [H|H].
  - exact (word_bounded p k b Hk _ _ _ H).
  - exact (IH _ _ _ H).
Qed.

(** a match is not longer than the text *)
Lemma match_here_bounded r : bounded 0 (match_here fl r).
Proof.
  induction r as [|nd r IH]; intros prev s n H.
  - injection H as <-. lia.
  - destruct nd as [a|a lo hi g| | |alts]; cbn [match_here] in H.
    + destruct s as [|c s]; [discriminate|].
      destruct (accepts fl a c); [|discriminate].
      apply option_map_S_some in H as (n' & H & ->).
      apply IH in H. cbn [List.length]. lia.
    + exact (rep_bounded a _ g 0 IH lo hi _ _ _ H).
    + destruct prev; [discriminate|]. exact (IH _ _ _ H).
    + destruct (at_boundary prev s); [|discriminate]. exact (IH _ _ _ H).
    + exact (first_alt_bounded alts _ 0 IH _ _ _ H).
Qed.

(** a match found by a search lies inside the text *)
Lemma search_from_inside r s :
  forall prev i n,
    search_from fl r prev s = Some (i, n) ->
    (i + n <= List.length s)%nat
    /\ exists prev', match_here fl r prev' (skipn i s) = Some n.
Proof.
  induction s as [|c s IH]; intros prev i n H; cbn [search_from] in H.
  - destruct (match_here fl r prev []) as [m|] eqn:Hm; [|discriminate].
    injection H as <- <-. split; [apply (match_here_bounded r _ _ _ Hm)|eauto].
  - destruct (match_here fl r prev (c :: s)) as [m|] eqn:Hm.
    + injection H as <- <-. split; [apply (match_here_bounded r _ _ _ Hm)|eauto].
    + destruct (search_from fl r (Some c) s) as [[j m]|] eqn:Hs; [|discriminate].
      injection H as <- <-. apply IH in Hs as [Hlen Hex].
      split; [cbn [List.length]; lia|exact Hex].
Qed.

End Bounds.

Section SenderNotEmpty.

Context {E : Externals}.

(** a match of the address pattern has an opening bracket, one character
    at least and a closing bracket *)
Lemma angle_match_length prev s n :
  match_here no_flags angle_address_pattern prev s = Some n -> (3 <= n)%nat.
Proof.
  intros H. cbn [angle_address_pattern match_here Plus] in H.
  destruct s as [|c s]; [discriminate|].
  destruct (accepts no_flags (Lit (ch "<")) c); [|discriminate].
  apply option_map_S_some in H as (n1 & H & ->).
  destruct s as [|c' s]; [discriminate|].
  cbn [rep] in H.
  destruct (accepts no_flags (NoneOf [Ch (ch ">")]) c' && true); [|discriminate].
  cbn [orelse pred option_map] in H. rewrite orelse_none_r in H.
  apply option_map_S_some in H as (n2 & H & ->).
  assert (Hk : bounded 1 (match_here no_flags [One (Lit (ch ">"))])).
  { intros p t m Hm. cbn [match_here] in Hm. destruct t as [|x t]; [discriminate|].
    destruct (accepts no_flags (Lit (ch ">")) x); [|discriminate].
    injection Hm as <-. cbn [List.length]. lia. }
  apply (rep_bounded no_flags _ _ true 1 Hk) in H. lia.
Qed.

(** X4: [clean_sender] never returns the empty string: an empty sender
    becomes the sentinel, a bracketed address has one character at
    least, and any other sender is returned as it is. *)
Theorem clean_sender_is_not_empty :
  forall (sender : str), clean_sender sender <> [].
Proof.
  intros sender. unfold clean_sender.
  destruct (is_empty sender) eqn:He; [discriminate|].
  destruct (search no_flags angle_address_pattern sender) as [[i n]|] eqn:Hs.
  - unfold search in Hs.
    apply search_from_inside in Hs as [Hlen [prev' Hm]].
    apply angle_match_length in Hm.
    intros Hnil. apply (f_equal (@List.length char)) in Hnil.
    rewrite length_firstn, length_skipn in Hnil. cbn [List.length] in Hnil. lia.
  - destruct (contains_char (ch "@") sender);
      intros ->; discriminate.
Qed.

End SenderNotEmpty.

(** ** Lines of the signature stage *)

(** joining undoes splitting *)
Lemma join_split_lines (s : str) : join_lines (split_lines s) = s.
Proof.
  induction s as [|c s IH]; [reflexivity|].
  cbn [split_lines]. destruct (eqc c NL) eqn:Hc.
  - apply eqc_eq in Hc. subst c.
    destruct (split_lines s) as [|l ls] eqn:Hs.
    + now destruct (split_lines_not_nil s).
    + change (join_lines ([] :: l :: ls)) with ([] ++ NL :: join_lines (l :: ls)).
      now rewrite IH.
  - destruct (split_lines s) as [|l ls] eqn:Hs.
    + now destruct (split_lines_not_nil s).
    + rewrite <- IH. destruct ls; reflexivity.
Qed.

Lemma filter_keeps_all {A : Type} (f : A -> bool) (l : list A) :
  (forall x, List.In x l -> f x = true) -> filter f l = l.
Proof.
  induction l as [|x l IH]; intros H; [reflexivity|].
  cbn [filter]. rewrite (H x (or_introl eq_refl)).
  f_equal. apply IH. intros y Hy. apply H. now right.
Qed.

(** lines that all pass a filter are rejoined into the text they came from *)
Lemma join_filter_split (f : str -> bool) (s : str) :
  (forall l, List.In l (split_lines s) -> f l = true) ->
  join_lines (filter f (split_lines s)) = s.
Proof.
  intros H. rewrite filter_keeps_all; [apply join_split_lines|exact H].
Qed.

(** the lines of a filtered and rejoined text all pass the filter *)
Lemma split_join_filter (f : str -> bool) (s : str) :
  f [] = true ->
  forall l, List.In l (split_lines (join_lines (filter f (split_lines s)))) ->
            f l = true.
Proof.
  intros Hnil l.
  assert (Hkept : forall x, List.In x (filter f (split_lines s)) ->
                            f x = true /\ contains_char NL x = false).
  { intros x Hx. apply filter_In in Hx as [Hx Hf]. split; [exact Hf|].
    now apply split_lines_no_newline with (s := s). }
  destruct (filter f (split_lines s)) as [|k ks].
  - intros [<-|[]]. exact Hnil.
  - rewrite split_join_lines; [|discriminate|intros x Hx; now apply Hkept].
    intros Hl. now apply Hkept.
Qed.

Section Signatures.

Context {E : Externals}.

(** X5: a text none of whose lines matches a boilerplate pattern leaves
    [remove_signatures] unchanged, line breaks included. *)
Theorem remove_signatures_keeps_clean_text :
  forall (text : str),
    (forall line, List.In line (split_lines text) -> is_signature line = false) ->
    remove_signatures text = text.
Proof.
  intros text H. unfold remove_signatures.
  apply join_filter_split.
  intros line Hl. now rewrite (H line Hl).
Qed.

(** X6: no line of the output of [remove_signatures] matches a
    boilerplate pattern, and the lines that match none are all kept, in
    their order. *)
Theorem remove_signatures_output_lines :
  forall (text : str),
    (forall line, List.In line (split_lines (remove_signatures text)) ->
                  is_signature line = false)
    /\ (remove_signatures text <> [] ->
        split_lines (remove_signatures text)
        = filter (fun line => negb (is_signature line)) (split_lines text)).
Proof.
  intros text. unfold remove_signatures.
  set (kept := filter (fun line => negb (is_signature line)) (split_lines text)).
  assert (Hkept : forall l, List.In l kept ->
                            is_signature l = false /\ contains_char NL l = false).
  { intros l Hl. apply filter_In in Hl as [Hl Hs]. split.
    - now apply negb_true_iff.
    - now apply split_lines_no_newline with (s := text). }
  destruct kept as [|l ls] eqn:Hk.
  - split; [|intros H; now destruct H].
    intros line [<-|[]]. vm_compute. reflexivity.
  - assert (Hsplit : split_lines (join_lines (l :: ls)) = l :: ls).
    { apply split_join_lines; [discriminate|]. intros x Hx. now apply Hkept. }
    rewrite Hsplit. split; [|reflexivity].
    intros line Hl. now apply Hkept.
Qed.

End Signatures.

Lemma remove_signatures_keeps_clean_text_witness :
  remove_signatures (py "Dear Jane" ++ [NL; NL] ++ py "see you -- Joe")
  = py "Dear Jane" ++ [NL; NL] ++ py "see you -- Joe".
Proof.
  apply (@remove_signatures_keeps_clean_text reference).
  intros line Hl. vm_compute in Hl.
  destruct Hl as [<-|[<-|[<-|[]]]]; vm_compute; reflexivity.
Defined.

Section Boilerplate.

Context {E : Externals}.

Lemma match_literal r :
  forall p, literal_word r = Some p ->
  forall w post prev,
    same_word p w = true ->
    match_here IGNORECASE r prev (w ++ post) = Some (List.length w).
Proof.
  induction r as [|nd r IH]; intros p Hp w post prev Hw.
  - injection Hp as <-. destruct w; [reflexivity|discriminate].
  - destruct nd as [[x| | | | |]| | | |]; try discriminate.
    cbn [literal_word] in Hp.
    destruct (literal_word r) as [p'|] eqn:Hr; [|discriminate].
    injection Hp as <-. destruct w as [|c w]; [discriminate|].
    cbn [same_word] in Hw. apply andb_true_iff in Hw as [Hc Hw].
    cbn [app match_here accepts ignorecase IGNORECASE List.length].
    rewrite Hc. now rewrite (IH p' eq_refl w post (Some c) Hw).
Qed.

Lemma search_from_finds fl r (m : str) :
  (forall prev, match_here fl r prev m <> None) ->
  forall pre prev, search_from fl r prev (pre ++ m) <> None.
Proof.
  intros Hm. induction pre as [|c pre IH]; intros prev.
  - cbn [app]. specialize (Hm prev).
    destruct m; cbn [search_from];
      destruct (match_here fl r prev _); try discriminate; now destruct Hm.
  - cbn [app search_from].
    destruct (match_here fl r prev (c :: pre ++ m)); [discriminate|].
    specialize (IH (Some c)).
    destruct (search_from fl r (Some c) (pre ++ m)) as [[i n]|];
      [discriminate|now destruct IH].
Qed.

(** X7: the literal boilerplate patterns are met anywhere in a line and
    in any letter case: a line that holds a pattern's words, whatever
    the case of their letters and whatever stands before and after them,
    is a signature line. *)
Theorem boilerplate_in_any_case :
  forall (pattern : regex) (p pre w post : str),
    List.In pattern signature_patterns ->
    literal_word pattern = Some p ->
    same_word p w = true ->
    is_signature (pre ++ w ++ post) = true.
Proof.
  intros pattern p pre w post Hin Hp Hw. unfold is_signature.
  apply existsb_exists. exists pattern. split; [exact Hin|].
  unfold search.
  assert (Hm : forall prev, match_here IGNORECASE pattern prev (w ++ post) <> None).
  { intros prev. now rewrite (match_literal pattern p Hp w post prev Hw). }
  pose proof (search_from_finds IGNORECASE pattern (w ++ post) Hm pre None) as Hf.
  destruct (search_from IGNORECASE pattern None (pre ++ w ++ post));
    [reflexivity|now destruct Hf].
Qed.

End Boilerplate.

Lemma boilerplate_in_any_case_witness :
  is_signature (py "-- " ++ py "SENT FROM MY IPHONE" ++ py "!") = true.
Proof.
  apply (@boilerplate_in_any_case reference (lits "Sent from my iPhone")
           (py "Sent from my iPhone")).
  - right. left. reflexivity.
  - reflexivity.
  - reflexivity.
Defined.

(** ** Lines of the white-space stage *)

Lemma existsb_rev (f : char -> bool) (s : str) : existsb f (rev s) = existsb f s.
Proof.
  induction s as [|c s IH]; [reflexivity|].
  cbn [rev existsb]. rewrite existsb_app, IH. cbn [existsb].
  rewrite orb_false_r. apply orb_comm.
Qed.

Lemma lstrip_lacks (f : char -> bool) (s : str) :
  existsb f s = false -> existsb f (lstrip s) = false.
Proof.
  induction s as [|c s IH]; intros H; [reflexivity|].
  cbn [lstrip]. destruct (isspace c); [|exact H].
  cbn [existsb] in H. apply orb_false_iff in H as [_ H]. now apply IH.
Qed.

(** trimming brings in no character *)
Lemma strip_lacks (f : char -> bool) (s : str) :
  existsb f s = false -> existsb f (strip s) = false.
Proof.
  intros H. unfold strip, rstrip. rewrite existsb_rev.
  apply lstrip_lacks. rewrite existsb_rev. now apply lstrip_lacks.
Qed.

Section WhitespaceLines.

Context {E : Externals}.

(** X8: every line of the output of [normalize_whitespace] is trimmed,
    and none is empty unless the whole output is. *)
Theorem normalize_whitespace_lines :
  forall (text line : str),
    List.In line (split_lines (normalize_whitespace text)) ->
    trimmed line /\ (normalize_whitespace text <> [] -> line <> []).
Proof.
  intros text line. unfold normalize_whitespace.
  set (t := sub no_flags [One (Lit NL); Star Space; One (Lit NL)] [NL] _).
  set (lines := filter (fun l => negb (is_empty l)) (map strip (split_lines t))).
  assert (Hlines : forall x, List.In x lines ->
            trimmed x /\ x <> [] /\ contains_char NL x = false).
  { intros x Hx. apply filter_In in Hx as [Hx Hne].
    apply in_map_iff in Hx as (l & <- & Hl). repeat split.
    - apply strip_trimmed.
    - intros Hnil. rewrite Hnil in Hne. discriminate.
    - apply strip_lacks. now apply split_lines_no_newline with (s := t). }
  destruct lines as [|l ls] eqn:Hk.
  - intros [<-|[]]. split; [apply trimmed_nil|]. intros H. now destruct H.
  - rewrite split_join_lines; [|discriminate|intros x Hx; now apply Hlines].
    intros Hin. destruct (Hlines line Hin) as (Ht & Hne & _). auto.
Qed.

End WhitespaceLines.

Lemma normalize_whitespace_lines_witness :
  trimmed (py "b c")
  /\ (normalize_whitespace (py " a  " ++ [NL; NL] ++ py "  b   c ") <> [] -> py "b c" <> []).
Proof.
  apply (@normalize_whitespace_lines reference
           (py " a  " ++ [NL; NL] ++ py "  b   c ") (py "b c")).
  vm_compute. right. left. reflexivity.
Defined.

(** ** The loop of [process_csv_file], for any number of rows *)

Section Loop.

Variable clean : row -> option (list (option str)).
Variable emit : list (option str) -> option str.

Lemma process_rows_step r rows n st :
  process_rows clean emit (r :: rows) n st =
  process_rows clean emit rows (S n)
    match line_of clean emit r with
    | Some line =>
        {| written := written st ++ [line]; processed := S (processed st);
           skipped := skipped st; warnings := warnings st |}
    | None =>
        {| written := written st; processed := processed st;
           skipped := S (skipped st); warnings := warnings st ++ [n] |}
    end.
Proof.
  cbn [process_rows]. unfold line_of.
  destruct (clean r) as [fields|]; [destruct (emit fields)|]; reflexivity.
Qed.

Lemma process_rows_spec (rows : list row) :
  forall n st,
    process_rows clean emit rows n st =
    {| written := written st ++ lines_of clean emit rows;
       processed := processed st
                    + List.length (filter (fun r => negb (raised (line_of clean emit r))) rows);
       skipped := skipped st
                  + List.length (filter (fun r => raised (line_of clean emit r)) rows);
       warnings := warnings st ++ failing_numbers clean emit n rows |}.
Proof.
  unfold lines_of, failing_numbers.
  induction rows as [|r rows IH]; intros n st.
  - cbn. rewrite !app_nil_r, !Nat.add_0_r. now destruct st.
  - rewrite process_rows_step, IH.
    cbn [flat_map filter List.length seq combine map fst snd].
    destruct (line_of clean emit r) as [line|];
      cbn [raised negb written processed skipped warnings List.length map fst app];
      f_equal; rewrite <- ?app_assoc; cbn [app]; try reflexivity; lia.
Qed.

(** X9: for any input rows, [process_csv_file] writes the header and
    then the line of every row whose cleaning and writing return, in
    input order and nothing else; it counts those rows as processed and
    the others as skipped, and reports the numbers of the skipped rows,
    counted from 1. *)
Theorem process_csv_file_isolates_every_row :
  forall (rows : list row),
    let st := process_csv_file_with clean emit rows in
    written st = writerow QUOTE_MINIMAL fieldnames :: lines_of clean emit rows
    /\ warnings st = failing_numbers clean emit 1 rows
    /\ (processed st + skipped st = List.length rows)%nat
    /\ List.length (written st) = S (processed st)
    /\ List.length (warnings st) = skipped st.
Proof.
  intros rows st. subst st. unfold process_csv_file_with.
  rewrite process_rows_spec.
  cbn [written processed skipped warnings after_header app Nat.add].
  split; [reflexivity|]. split; [reflexivity|].
  assert (Hlines : List.length (lines_of clean emit rows)
                   = List.length (filter (fun r => negb (raised (line_of clean emit r))) rows)).
  { unfold lines_of. induction rows as [|r rs IH]; [reflexivity|].
    cbn [flat_map filter]. rewrite length_app, IH.
    destruct (line_of clean emit r); reflexivity. }
  assert (Hfail : List.length (failing_numbers clean emit 1 rows)
                  = List.length (filter (fun r => raised (line_of clean emit r)) rows)).
  { clear Hlines. unfold failing_numbers. rewrite length_map. generalize 1%nat.
    induction rows as [|r rs IH]; intros n; [reflexivity|].
    cbn [List.length seq combine filter snd].
    destruct (raised (line_of clean emit r)); cbn [List.length]; now rewrite IH. }
  repeat split.
  - clear. induction rows as [|r rs IH]; [reflexivity|].
    cbn [filter List.length]. destruct (raised (line_of clean emit r));
      cbn [negb List.length]; lia.
  - cbn [List.length]. now rewrite Hlines.
  - exact Hfail.
Qed.

End Loop.

(** ** What a substitution lets through *)

Lemma forallb_rev (f : char -> bool) (s : str) : forallb f (rev s) = forallb f s.
Proof.
  induction s as [|c s IH]; [reflexivity|].
  cbn [rev forallb]. rewrite forallb_app, IH. cbn [forallb].
  rewrite andb_true_r. apply andb_comm.
Qed.

Lemma lstrip_forall (f : char -> bool) (s : str) :
  forallb f s = true -> forallb f (lstrip s) = true.
Proof.
  induction s as [|c s IH]; intros H; [reflexivity|].
  cbn [lstrip]. destruct (isspace c); [|exact H].
  apply IH. now apply forallb_tail in H.
Qed.

Lemma strip_forall (f : char -> bool) (s : str) :
  forallb f s = true -> forallb f (strip s) = true.
Proof.
  intros H. unfold strip, rstrip. rewrite forallb_rev.
  apply lstrip_forall. rewrite forallb_rev. now apply lstrip_forall.
Qed.

Section Through.

Context {E : Externals}.
Variable fl : flags.
Variable P : char -> bool.

(** the result is made of characters of the text and of the replacement *)
Lemma sub_from_forall r repl (s : str) :
  forallb P repl = true ->
  forallb P s = true ->
  forall prev skip, forallb P (sub_from fl r repl prev s skip) = true.
Proof.
  intros Hrepl. induction s as [|c s IH]; intros Hs prev skip.
  - cbn [sub_from]. destruct skip; [|reflexivity].
    destruct (match_here fl r prev []); [exact Hrepl|reflexivity].
  - cbn [forallb] in Hs. apply andb_true_iff in Hs as [Hc Hs].
    cbn [sub_from]. destruct skip as [|skip]; [|now apply IH].
    destruct (match_here fl r prev (c :: s)) as [[|n]|];
      rewrite ?forallb_app; cbn [forallb]; rewrite ?Hrepl, ?Hc, ?IH; auto.
Qed.

Lemma sub_forall r repl (s : str) :
  forallb P repl = true -> forallb P s = true -> forallb P (sub fl r repl s) = true.
Proof. intros Hr Hs. now apply sub_from_forall. Qed.

(** When a pattern fails only on characters its position [a] rejects,
    and matches one character at least, the result is made of rejected
    characters and of the replacement, whatever the text. *)
Lemma sub_from_rejected a r repl :
  (forall prev c s, match_here fl r prev (c :: s) = None -> accepts fl a c = false) ->
  (forall prev s, match_here fl r prev s <> Some O) ->
  (forall c, accepts fl a c = false -> P c = true) ->
  forallb P repl = true ->
  forall s prev skip, forallb P (sub_from fl r repl prev s skip) = true.
Proof.
  intros Hmiss Hpos HP Hrepl. induction s as [|c s IH]; intros prev skip.
  - cbn [sub_from]. destruct skip; [|reflexivity].
    destruct (match_here fl r prev []); [exact Hrepl|reflexivity].
  - cbn [sub_from]. destruct skip as [|skip]; [|apply IH].
    destruct (match_here fl r prev (c :: s)) as [[|n]|] eqn:Hm.
    + now destruct (Hpos prev (c :: s)).
    + rewrite forallb_app, Hrepl. apply IH.
    + cbn [forallb]. rewrite (HP c (Hmiss prev c s Hm)). apply IH.
Qed.

Lemma one_miss a prev c s :
  match_here fl [One a] prev (c :: s) = None -> accepts fl a c = false.
Proof. cbn [match_here]. now destruct (accepts fl a c). Qed.

Lemma one_positive a prev s : match_here fl [One a] prev s <> Some O.
Proof.
  cbn [match_here]. destruct s as [|c s]; [discriminate|].
  destruct (accepts fl a c); discriminate.
Qed.

Lemma plus_miss a prev c s :
  match_here fl [Plus a] prev (c :: s) = None -> accepts fl a c = false.
Proof.
  intros H. destruct (accepts fl a c) eqn:Hc; [|reflexivity].
  destruct (rep_plus_last_some fl a prev c s Hc) as [n Hn].
  cbn [match_here Plus] in H. cbn [match_here] in Hn. congruence.
Qed.

Lemma plus_positive a prev s : match_here fl [Plus a] prev s <> Some O.
Proof.
  cbn [match_here Plus]. destruct s as [|c s]; [discriminate|].
  destruct (accepts fl a c) eqn:Hc.
  - destruct (rep_plus_last_some fl a prev c s Hc) as [n Hn].
    cbn [match_here] in Hn. rewrite Hn. discriminate.
  - rewrite rep_plus_last_none; [discriminate|exact Hc].
Qed.

End Through.

(** ** [clean_text] and [clean_email_content] *)

Section Exports.

Context {E : Externals}.

Lemma outside_printable_rejected (c : char) :
  accepts no_flags (NoneOf [Range 32 126; Ch NL; Ch TAB]) c = false ->
  printable c = true.
Proof.
  cbn [accepts existsb item_has lit_eq ignorecase no_flags]. unfold printable.
  intros H. apply negb_false_iff in H. now rewrite orb_false_r, orb_assoc in H.
Qed.

(** X10: every character of the text [clean_text] returns is printable
    ASCII (0x20 to 0x7E), a line feed or a tab, whatever the input; in
    particular the text holds no carriage return and no character
    outside ASCII. *)
Theorem clean_text_is_printable :
  forall (text : str), forallb printable (clean_text text) = true.
Proof.
  intros text. unfold clean_text. destruct (is_empty text); [reflexivity|].
  apply strip_forall, sub_forall; [reflexivity|].
  apply sub_from_rejected with (a := NoneOf [Range 32 126; Ch NL; Ch TAB]).
  - apply one_miss.
  - apply one_positive.
  - apply outside_printable_rejected.
  - reflexivity.
Qed.

(** the text [clean_text] returns is trimmed *)
Lemma clean_text_is_trimmed (text : str) : trimmed (clean_text text).
Proof.
  unfold clean_text. destruct (is_empty text);
    [apply trimmed_nil|apply strip_trimmed].
Qed.

Lemma not_space_is_narrow (c : char) :
  accepts no_flags Space c = false -> negb (wide_space c) = true.
Proof. cbn [accepts]. unfold wide_space. now intros ->. Qed.

(** X11: when [clean_email_content] returns, its text holds no
    white-space character other than the space (no line break, no tab):
    it is one line, whatever the markup parser returned. *)
Theorem clean_email_content_is_one_line :
  forall (html_unescape : str -> str) (soup_text : str -> option str)
         (text out : str),
    clean_email_content html_unescape soup_text text = Some out ->
    forallb (fun c => negb (wide_space c)) out = true.
Proof.
  intros html_unescape soup_text text out. unfold clean_email_content.
  destruct (is_empty text); [intros H; injection H as <-; reflexivity|].
  destruct (soup_text (html_unescape text)) as [parsed|]; [|discriminate].
  intros H. injection H as <-.
  apply strip_forall.
  repeat (apply sub_forall; [reflexivity|]).
  apply strip_forall.
  apply sub_from_rejected with (a := Space).
  - apply plus_miss.
  - apply plus_positive.
  - apply not_space_is_narrow.
  - reflexivity.
Qed.

End Exports.

Lemma clean_email_content_is_one_line_witness :
  forallb (fun c => negb (wide_space c))
          (py "Hello world Visit link now!") = true.
Proof.
  apply (@clean_email_content_is_one_line reference (fun t => t)
           (fun t => Some (extract_text t 0%nat)) body_example).
  vm_compute. reflexivity.
Defined.

(** ** Runs collapsed by a substitution *)

Section Runs.

Context {E : Externals}.
Variable fl : flags.
Variable a : atom.

Local Notation "'f'" := (accepts fl a).

(** a greedy quantifier at the end of a pattern takes the whole run, if
    the run is long enough *)
Lemma rep_greedy_run_length (s : str) :
  forall lo prev,
    rep fl a (fun _ _ => Some O) true lo None prev s =
    if (lo <=? run_length f s)%nat then Some (run_length f s) else None.
Proof.
  induction s as [|c s IH]; intros lo prev.
  - cbn [rep run_length]. now destruct lo.
  - cbn [rep run_length option_map pred]. destruct (f c) eqn:Hc; cbn [andb].
    + rewrite IH. destruct lo as [|lo]; cbn [pred].
      * destruct (0 <=? run_length f s)%nat eqn:H0; [reflexivity|].
        apply Nat.leb_gt in H0. lia.
      * change (S lo <=? S (run_length f s))%nat with (lo <=? run_length f s)%nat.
        now destruct (lo <=? run_length f s)%nat.
    + now destruct lo.
Qed.

Lemma run_length_zero (s : str) : run_length f s = O -> starts_in f s = false.
Proof. destruct s as [|c s]; [reflexivity|]. cbn. now destruct (f c). Qed.

Variable x : char.
Variable lo : nat.
Hypothesis Hlo : (1 <= lo <= 2)%nat.

Local Notation "'collapse'" := (sub_from fl [Rep a lo None true] [x]).

(** After a{1,} or a{2,} is replaced by one character, no two characters
    of the set stand side by side.  [skip] is zero or points at the end
    of the run being dropped. *)
Lemma collapse_no_double (s : str) :
  forall skip prev,
    skip = O \/ skip = run_length f s ->
    no_double f (collapse prev s skip) = true
    /\ (starts_in f s = false \/ skip <> O ->
        starts_in f (collapse prev s skip) = false).
Proof.
  induction s as [|c s IH]; intros skip prev Hskip.
  - cbn [sub_from match_here]. rewrite rep_greedy_run_length. cbn [run_length].
    destruct skip; [|auto].
    destruct (lo <=? 0)%nat eqn:H0; [apply Nat.leb_le in H0; lia|auto].
  - cbn [sub_from]. destruct skip as [|skip].
    + cbn [match_here]. rewrite rep_greedy_run_length.
      destruct (lo <=? run_length f (c :: s))%nat eqn:Hrun.
      * apply Nat.leb_le in Hrun.
        destruct (run_length f (c :: s)) as [|n] eqn:Hn; [lia|].
        cbn [run_length] in Hn. destruct (f c) eqn:Hc; [|discriminate].
        injection Hn as Hn.
        destruct (IH n (Some c)) as [Hnd Hst]; [now right|].
        cbn [app]. split.
        -- cbn [no_double]. rewrite Hnd, andb_true_r.
           rewrite Hst; [now rewrite andb_false_r|].
           destruct n; [left; now apply run_length_zero|now right].
        -- cbn [starts_in]. intros [H|H]; [congruence|now destruct H].
      * apply Nat.leb_gt in Hrun.
        destruct (IH O (Some c)) as [Hnd Hst]; [now left|].
        split.
        -- cbn [no_double]. rewrite Hnd, andb_true_r.
           destruct (f c) eqn:Hc; [|reflexivity].
           cbn [run_length] in Hrun. rewrite Hc in Hrun.
           rewrite Hst; [reflexivity|]. left. apply run_length_zero. lia.
        -- cbn [starts_in]. intros [H|H]; [exact H|now destruct H].
    + destruct Hskip as [Hskip|Hskip]; [discriminate|].
      cbn [run_length] in Hskip. destruct (f c) eqn:Hc; [|discriminate].
      injection Hskip as Hskip.
      destruct (IH skip (Some c)) as [Hnd Hst]; [now right|].
      split; [exact Hnd|]. intros _. apply Hst.
      destruct skip; [left; now apply run_length_zero|now right].
Qed.

End Runs.

Section Pairs.

Variable f : char -> bool.

Lemma no_double_ext (g : char -> bool) (s : str) :
  (forall c, f c = g c) -> no_double f s = no_double g s.
Proof.
  intros H. induction s as [|c s IH]; [reflexivity|].
  cbn [no_double]. rewrite IH, H. destruct s; cbn [starts_in]; now rewrite ?H.
Qed.

Lemma no_double_tail (c : char) (s : str) :
  no_double f (c :: s) = true -> no_double f s = true.
Proof. cbn [no_double]. intros H. now apply andb_true_iff in H. Qed.

(** a piece without characters of the set separates what precedes it
    from what follows *)
Lemma no_double_after (p t : str) :
  forallb (fun c => negb (f c)) p = true -> p <> [] ->
  no_double f (p ++ t) = no_double f t /\ starts_in f (p ++ t) = false.
Proof.
  induction p as [|y p IH]; intros Hp Hne; [contradiction|].
  cbn [forallb] in Hp. apply andb_true_iff in Hp as [Hy Hp].
  apply negb_true_iff in Hy.
  cbn [app no_double starts_in]. rewrite Hy. cbn [andb negb].
  split; [|reflexivity].
  destruct p as [|y' p]; [reflexivity|].
  now destruct (IH Hp) as [-> _].
Qed.

Context {E : Externals}.
Variable fl : flags.
Variable r : regex.
Variable repl : str.
Hypothesis Hrepl : forallb (fun c => negb (f c)) repl = true.
Hypothesis Hsome : repl <> [].

(** A substitution whose replacement is not empty and has no character
    of the set brings no two characters of the set side by side. *)
Lemma sub_from_no_double (s : str) :
  no_double f s = true ->
  forall prev skip,
    no_double f (sub_from fl r repl prev s skip) = true
    /\ (skip = O -> starts_in f (sub_from fl r repl prev s skip) = true ->
        starts_in f s = true).
Proof.
  induction s as [|c s IH]; intros Hs prev skip.
  - cbn [sub_from]. destruct skip; [|split; [reflexivity|discriminate]].
    destruct (match_here fl r prev []).
    + destruct (no_double_after repl [] Hrepl Hsome) as [Hnd Hst].
      rewrite app_nil_r in Hnd, Hst. rewrite Hnd, Hst.
      split; [reflexivity|discriminate].
    + split; [reflexivity|discriminate].
  - pose proof (no_double_tail c s Hs) as Hs'.
    cbn [sub_from]. destruct skip as [|skip].
    2:{ split; [now apply IH|discriminate]. }
    assert (Hcopy : no_double f (c :: sub_from fl r repl (Some c) s 0) = true).
    { destruct (IH Hs' (Some c) O) as [Hnd Hst].
      cbn [no_double]. rewrite Hnd, andb_true_r.
      destruct (f c) eqn:Hc; [|reflexivity].
      destruct (starts_in f (sub_from fl r repl (Some c) s 0)) eqn:Hh; [|reflexivity].
      specialize (Hst eq_refl eq_refl).
      cbn [no_double] in Hs. rewrite Hc, Hst in Hs. discriminate. }
    destruct (match_here fl r prev (c :: s)) as [[|n]|].
    + destruct (no_double_after repl (c :: sub_from fl r repl (Some c) s 0)
                  Hrepl Hsome) as [-> ->].
      split; [exact Hcopy|discriminate].
    + destruct (no_double_after repl (sub_from fl r repl (Some c) s n)
                  Hrepl Hsome) as [-> ->].
      split; [now apply IH|discriminate].
    + split; [exact Hcopy|]. intros _ H. exact H.
Qed.

Lemma sub_no_double (s : str) :
  no_double f s = true -> no_double f (sub fl r repl s) = true.
Proof. intros H. now apply sub_from_no_double. Qed.

End Pairs.

Section Punctuation.

Context {E : Externals}.

Lemma collapse_member (x : char) (s : str) :
  no_double (fun c => eqc c x)
            (sub no_flags [AtLeast 2 (OneOf [Ch x])] [x] s) = true.
Proof.
  rewrite <- (no_double_ext (accepts no_flags (OneOf [Ch x]))).
  - apply (collapse_no_double no_flags (OneOf [Ch x]) x 2); [lia|now left].
  - intros c. cbn [accepts existsb item_has lit_eq ignorecase no_flags].
    apply orb_false_r.
Qed.

Lemma collapse_literal (x : char) (s : str) :
  no_double (fun c => eqc c x)
            (sub no_flags [AtLeast 2 (Lit x)] [x] s) = true.
Proof.
  rewrite <- (no_double_ext (accepts no_flags (Lit x))).
  - apply (collapse_no_double no_flags (Lit x) x 2); [lia|now left].
  - intros c. reflexivity.
Qed.

Lemma clean_punctuation_no_double (x : char) (text : str) :
  List.In x [ch "!"; ch "?"; ch "."; ch ","] ->
  no_double (fun c => eqc c x) (clean_punctuation text) = true.
Proof.
  unfold clean_punctuation. intros [<-|[<-|[<-|[<-|[]]]]].
  - repeat (apply sub_no_double; [reflexivity|discriminate|]).
    apply collapse_member.
  - repeat (apply sub_no_double; [reflexivity|discriminate|]).
    apply collapse_member.
  - apply sub_no_double; [reflexivity|discriminate|].
    apply collapse_member.
  - apply collapse_literal.
Qed.

(** X12: in the text [clean_punctuation] returns, no two exclamation
    marks stand side by side, nor two question marks, two full stops or
    two commas, whatever the input. *)
Theorem clean_punctuation_leaves_no_repeat :
  forall (text : str),
    no_double (fun c => eqc c (ch "!")) (clean_punctuation text) = true
    /\ no_double (fun c => eqc c (ch "?")) (clean_punctuation text) = true
    /\ no_double (fun c => eqc c (ch ".")) (clean_punctuation text) = true
    /\ no_double (fun c => eqc c (ch ",")) (clean_punctuation text) = true.
Proof.
  intros text.
  repeat split; apply clean_punctuation_no_double; cbn [List.In]; tauto.
Qed.

End Punctuation.

(** ** Single spaces *)

Section Spacing.

Variable f : char -> bool.

Lemma starts_in_app (a b : str) :
  a <> [] -> starts_in f (a ++ b) = starts_in f a.
Proof. destruct a; [contradiction|reflexivity]. Qed.

Lemma no_double_suffix (a b : str) :
  no_double f (a ++ b) = true -> no_double f b = true.
Proof.
  induction a as [|c a IH]; intros H; [exact H|].
  apply IH. exact (no_double_tail f c (a ++ b) H).
Qed.

Lemma no_double_prefix (a b : str) :
  no_double f (a ++ b) = true -> no_double f a = true.
Proof.
  induction a as [|c a IH]; intros H; [reflexivity|].
  cbn [app no_double] in H |- *. apply andb_true_iff in H as [Hc H].
  rewrite (IH H), andb_true_r.
  destruct a as [|c' a]; [now rewrite andb_false_r|].
  now rewrite starts_in_app in Hc by discriminate.
Qed.

Lemma no_double_join (a b : str) (y : char) :
  f y = false ->
  no_double f a = true -> no_double f b = true ->
  no_double f (a ++ y :: b) = true.
Proof.
  intros Hy Ha Hb. induction a as [|c a IH].
  - cbn [app no_double]. now rewrite Hy, Hb.
  - cbn [app no_double] in Ha |- *. apply andb_true_iff in Ha as [Hc Ha].
    rewrite (IH Ha), andb_true_r.
    destruct a as [|c' a].
    + cbn [app starts_in]. now rewrite Hy, andb_false_r.
    + now rewrite starts_in_app by discriminate.
Qed.

Lemma lstrip_is_suffix (s : str) : exists p, s = p ++ lstrip s.
Proof.
  induction s as [|c s [p IH]]; [now exists []|].
  cbn [lstrip]. destruct (isspace c).
  - exists (c :: p). cbn [app]. now rewrite <- IH.
  - now exists [].
Qed.

Lemma rstrip_is_prefix (s : str) : exists q, s = rstrip s ++ q.
Proof.
  unfold rstrip. destruct (lstrip_is_suffix (rev s)) as [p Hp].
  exists (rev p). rewrite <- rev_app_distr, <- Hp. symmetry. apply rev_involutive.
Qed.

(** trimming brings no two characters of the set side by side *)
Lemma strip_no_double (s : str) :
  no_double f s = true -> no_double f (strip s) = true.
Proof.
  intros H. unfold strip.
  destruct (rstrip_is_prefix (lstrip s)) as [q Hq].
  destruct (lstrip_is_suffix s) as [p Hp].
  rewrite Hp in H. apply no_double_suffix in H.
  rewrite Hq in H. now apply no_double_prefix in H.
Qed.

Lemma first_line_start (s l : str) (ls : list str) :
  split_lines s = l :: ls -> starts_in f l = true -> starts_in f s = true.
Proof.
  destruct s as [|c s]; cbn [split_lines].
  - intros H. injection H as <- _. discriminate.
  - destruct (eqc c NL).
    + intros H. injection H as <- _. discriminate.
    + destruct (split_lines s); intros H; injection H as <- _; auto.
Qed.

Lemma split_lines_no_double (s : str) :
  no_double f s = true ->
  forall l, List.In l (split_lines s) -> no_double f l = true.
Proof.
  induction s as [|c s IH]; intros Hs l Hl.
  - destruct Hl as [<-|[]]. reflexivity.
  - pose proof (no_double_tail f c s Hs) as Hs'.
    cbn [split_lines] in Hl. destruct (eqc c NL).
    + destruct Hl as [<-|Hl]; [reflexivity|now apply IH].
    + destruct (split_lines s) as [|l0 ls] eqn:Hsplit.
      * now destruct (split_lines_not_nil s).
      * destruct Hl as [<-|Hl]; [|apply (IH Hs'); now right].
        cbn [no_double]. rewrite (IH Hs' l0 (or_introl eq_refl)), andb_true_r.
        destruct (f c) eqn:Hc; [|reflexivity].
        destruct (starts_in f l0) eqn:Hl0; [|reflexivity].
        pose proof (first_line_start s l0 ls Hsplit Hl0) as Hstart.
        cbn [no_double] in Hs. rewrite Hc, Hstart in Hs. discriminate.
Qed.

Lemma join_lines_no_double (ls : list str) :
  f NL = false ->
  (forall l, List.In l ls -> no_double f l = true) ->
  no_double f (join_lines ls) = true.
Proof.
  intros Hnl. induction ls as [|l ls IH]; intros H; [reflexivity|].
  destruct ls as [|l' ls]; [apply H; now left|].
  change (join_lines (l :: l' :: ls)) with (l ++ NL :: join_lines (l' :: ls)).
  apply no_double_join; [exact Hnl|apply H; now left|].
  apply IH. intros x Hx. apply H. now right.
Qed.

End Spacing.

Section SingleSpaces.

Context {E : Externals}.

Lemma spaces_collapsed (s : str) :
  no_double (fun c => eqc c SPC) (sub no_flags [Plus (Lit SPC)] (py " ") s) = true.
Proof.
  rewrite <- (no_double_ext (accepts no_flags (Lit SPC))).
  - apply (collapse_no_double no_flags (Lit SPC) SPC 1); [lia|now left].
  - intros c. reflexivity.
Qed.

(** trimming the lines of a text and dropping the empty ones brings no
    two spaces together *)
Lemma trimmed_lines_no_double (t : str) :
  no_double (fun c => eqc c SPC) t = true ->
  no_double (fun c => eqc c SPC)
            (join_lines (filter (fun l => negb (is_empty l))
                                (map strip (split_lines t)))) = true.
Proof.
  intros Ht. apply join_lines_no_double; [reflexivity|].
  intros l Hl. apply filter_In in Hl as [Hl _].
  apply in_map_iff in Hl as (l0 & <- & Hl0).
  apply strip_no_double.
  exact (split_lines_no_double _ _ Ht l0 Hl0).
Qed.

(** X13: in the text [normalize_whitespace] returns no two spaces stand
    side by side, whatever the input. *)
Theorem normalize_whitespace_single_spaces :
  forall (text : str),
    no_double (fun c => eqc c SPC) (normalize_whitespace text) = true.
Proof.
  intros text. unfold normalize_whitespace.
  apply trimmed_lines_no_double.
  apply sub_no_double; [reflexivity|discriminate|apply spaces_collapsed].
Qed.

(** X14: when [clean_email_content] returns, no two spaces stand side by
    side in its text and the text is trimmed: with X11, its words are
    separated by single spaces and by nothing else. *)
Theorem clean_email_content_single_spaces :
  forall (html_unescape : str -> str) (soup_text : str -> option str)
         (text out : str),
    clean_email_content html_unescape soup_text text = Some out ->
    no_double (fun c => eqc c SPC) out = true /\ trimmed out.
Proof.
  intros html_unescape soup_text text out. unfold clean_email_content.
  destruct (is_empty text); [intros H; injection H as <-; now split|].
  destruct (soup_text (html_unescape text)) as [parsed|]; [|discriminate].
  intros H. injection H as <-. split; [|apply strip_trimmed].
  apply strip_no_double, spaces_collapsed.
Qed.

End SingleSpaces.

Lemma clean_email_content_single_spaces_witness :
  no_double (fun c => eqc c SPC) (py "Hello world Visit link now!") = true
  /\ trimmed (py "Hello world Visit link now!").
Proof.
  apply (@clean_email_content_single_spaces reference (fun t => t)
           (fun t => Some (extract_text t 0%nat)) body_example).
  vm_compute. reflexivity.
Defined.

(** ** Tags *)

Lemma forallb_negb_existsb (g : char -> bool) (s : str) :
  forallb (fun c => negb (g c)) s = negb (existsb g s).
Proof.
  induction s as [|c s IH]; [reflexivity|].
  cbn [forallb existsb]. rewrite IH. now destruct (g c).
Qed.

Lemma split_at_first (x : char) (s : str) :
  contains_char x s = true ->
  exists run post, s = run ++ x :: post /\ contains_char x run = false.
Proof.
  unfold contains_char. induction s as [|c s IH]; intros H; [discriminate|].
  cbn [existsb] in H. destruct (eqc x c) eqn:Hc.
  - apply eqc_eq in Hc. subst c. now exists [], s.
  - destruct (IH H) as (run & post & -> & Hrun).
    exists (c :: run), post. split; [reflexivity|].
    cbn [existsb]. now rewrite Hc.
Qed.

(** a literal below the letters is matched by itself only, also under
    IGNORECASE *)
Lemma caseless_literal (x c : char) :
  x < 65 -> lit_eq true x c = true -> c = x.
Proof.
  intros Hx. unfold lit_eq, sre_lower, lower_ascii, between, eqc.
  destruct (N.leb_spec 65 x); [lia|]. cbn [andb].
  destruct (N.eqb_spec x 105); [lia|]. destruct (N.eqb_spec x 115); [lia|].
  cbn [andb orb]. rewrite !orb_false_r.
  destruct (N.eqb_spec c 304); [intros Heq; apply N.eqb_eq in Heq; lia|].
  destruct (N.eqb_spec c 8490); [intros Heq; apply N.eqb_eq in Heq; lia|].
  destruct (N.leb_spec 65 c); destruct (N.leb_spec c 90); cbn [andb];
    intros Heq; apply N.eqb_eq in Heq; lia.
Qed.

Section Tags.

Context {E : Externals}.

Local Notation "'gt'" := (fun c : char => eqc c (ch ">")).

Lemma tag_needs_bracket prev c s :
  eqc (ch "<") c = false ->
  match_here no_flags tag_pattern prev (c :: s) = None.
Proof. apply angle_needs_bracket. Qed.

(** a tag starts where [<] is followed by a character other than [>]
    and, further on, by [>] *)
Lemma tag_starts prev rest :
  starts_in gt rest = false ->
  contains_char (ch ">") rest = true ->
  match_here no_flags tag_pattern prev (ch "<" :: rest) <> None.
Proof.
  intros Hstart Hgt.
  destruct (split_at_first (ch ">") rest Hgt) as (run & post & -> & Hrun).
  destruct run as [|c run].
  - cbn [app starts_in] in Hstart. now rewrite eqc_refl in Hstart.
  - change tag_pattern with angle_address_pattern.
    rewrite (angle_match prev (c :: run) post); [discriminate|discriminate|exact Hrun].
Qed.

Lemma tag_found prev c rest n :
  match_here no_flags tag_pattern prev (c :: rest) = Some n ->
  c = ch "<" /\ starts_in gt rest = false /\ contains_char (ch ">") rest = true
  /\ n <> O.
Proof.
  intros H. cbn [tag_pattern match_here accepts lit_eq ignorecase no_flags Plus] in H.
  destruct (eqc c (ch "<")) eqn:Hc; [|discriminate].
  apply eqc_eq in Hc. apply option_map_S_some in H as (n1 & H & ->).
  split; [exact Hc|].
  pose proof (rep_takes_first no_flags _ _ _ _ _ _ _ _ H) as (c1 & s1 & -> & Hc1).
  apply rep_continues in H as (pre & s' & prev' & n' & Hsplit & Hk).
  repeat split; [| |discriminate].
  - cbn [starts_in]. cbn [accepts existsb item_has lit_eq ignorecase no_flags] in Hc1.
    rewrite orb_false_r in Hc1. now apply negb_true_iff in Hc1.
  - rewrite Hsplit. unfold contains_char. rewrite existsb_app.
    destruct s' as [|x s']; [discriminate|].
    destruct (eqc x (ch ">")) eqn:Hx; [|discriminate].
    cbn [existsb]. rewrite eqc_sym, Hx. apply orb_true_r.
Qed.

Local Notation "'untag'" := (sub_from no_flags tag_pattern (py " ")).

Lemma untag_keeps_bracket prev (s : str) :
  starts_in gt s = true -> starts_in gt (untag prev s 0) = true.
Proof.
  destruct s as [|c s]; [discriminate|]. cbn [starts_in]. intros Hc.
  cbn [sub_from]. rewrite tag_needs_bracket; [exact Hc|].
  apply eqc_eq in Hc. now subst c.
Qed.

Lemma untag_brings_no_bracket prev (s : str) skip :
  contains_char (ch ">") (untag prev s skip) = true ->
  contains_char (ch ">") s = true.
Proof.
  intros H. destruct (contains_char (ch ">") s) eqn:Hs; [reflexivity|].
  unfold contains_char in *.
  pose proof (sub_from_forall no_flags (fun c => negb (eqc (ch ">") c))
                tag_pattern (py " ") s eq_refl) as Hf.
  rewrite !forallb_negb_existsb in Hf. rewrite Hs in Hf.
  specialize (Hf eq_refl prev skip). rewrite forallb_negb_existsb, H in Hf.
  discriminate.
Qed.

(** a copied character starts no tag in the result *)
Lemma untag_no_new_tag prev prev' c (s : str) :
  match_here no_flags tag_pattern prev (c :: s) = None ->
  match_here no_flags tag_pattern prev' (c :: untag (Some c) s 0) = None.
Proof.
  intros Hno.
  destruct (match_here no_flags tag_pattern prev' (c :: untag (Some c) s 0))
    as [n|] eqn:Hout; [exfalso|reflexivity].
  apply tag_found in Hout as (-> & Hstart & Hgt & _).
  apply untag_brings_no_bracket in Hgt.
  destruct (starts_in gt s) eqn:Hs.
  - rewrite (untag_keeps_bracket (Some (ch "<")) s Hs) in Hstart. discriminate.
  - now apply (tag_starts prev s Hs Hgt).
Qed.

(** no tag is left after the tag substitution *)
Lemma untag_leaves_no_tag (s : str) :
  forall skip prev prev',
    search_from no_flags tag_pattern prev' (untag prev s skip) = None.
Proof.
  induction s as [|c s IH]; intros skip prev prev'.
  - cbn [sub_from]. destruct skip; reflexivity.
  - cbn [sub_from]. destruct skip as [|skip]; [|apply IH].
    destruct (match_here no_flags tag_pattern prev (c :: s)) as [[|n]|] eqn:Hm.
    + apply tag_found in Hm as (_ & _ & _ & Hn). now destruct Hn.
    + change (py " " ++ untag (Some c) s n) with (SPC :: untag (Some c) s n).
      rewrite search_from_skip by (now apply tag_needs_bracket).
      now rewrite IH.
    + rewrite search_from_skip by (now apply untag_no_new_tag with (prev := prev)).
      now rewrite IH.
Qed.

End Tags.

Section Implied.

Context {E : Externals}.
Variables fl1 fl2 : flags.
Variables r1 r2 : regex.
Hypothesis Himplied :
  forall prev s, match_here fl1 r1 prev s = None -> match_here fl2 r2 prev s = None.

(** where a pattern has no match, a pattern that matches only where it
    does changes nothing *)
Lemma sub_from_implied repl (s : str) :
  forall prev,
    search_from fl1 r1 prev s = None -> sub_from fl2 r2 repl prev s 0 = s.
Proof.
  induction s as [|c s IH]; intros prev H; cbn [search_from] in H.
  - destruct (match_here fl1 r1 prev []) eqn:Hm; [discriminate|].
    cbn [sub_from]. now rewrite (Himplied prev [] Hm).
  - destruct (match_here fl1 r1 prev (c :: s)) eqn:Hm; [discriminate|].
    destruct (search_from fl1 r1 (Some c) s) as [[i n]|] eqn:Hs; [discriminate|].
    cbn [sub_from]. now rewrite (Himplied prev (c :: s) Hm), (IH (Some c) Hs).
Qed.

End Implied.

Section ScriptAndStyle.

Context {E : Externals}.

Lemma bracket_met (s : str) :
  existsb (accepts DOTALL_IGNORECASE (Lit (ch ">"))) s = true ->
  contains_char (ch ">") s = true.
Proof.
  intros H. apply existsb_exists in H as (x & Hin & Hx).
  cbn [accepts ignorecase DOTALL_IGNORECASE] in Hx.
  apply caseless_literal in Hx; [|reflexivity]. subst x.
  apply existsb_exists. exists (ch ">"). split; [exact Hin|apply eqc_refl].
Qed.

(** an opening tag of a script or style element is a tag *)
Lemma opening_is_a_tag r' prev s :
  List.In (Lit (ch ">")) (mandatory r') ->
  match_here no_flags tag_pattern prev s = None ->
  match_here DOTALL_IGNORECASE (One (Lit (ch "<")) :: One (Lit (ch "s")) :: r') prev s
  = None.
Proof.
  intros Hin Hno.
  destruct (match_here DOTALL_IGNORECASE _ prev s) as [n|] eqn:H; [exfalso|reflexivity].
  destruct s as [|c0 [|c1 rest]]; cbn [match_here accepts ignorecase DOTALL_IGNORECASE] in H;
    try discriminate.
  - destruct (lit_eq true (ch "<") c0); discriminate.
  - destruct (lit_eq true (ch "<") c0) eqn:H0; [|discriminate].
    destruct (lit_eq true (ch "s") c1) eqn:H1; [|discriminate].
    apply option_map_S_some in H as (n1 & H & _).
    apply option_map_S_some in H as (n2 & H & _).
    apply (match_needs DOTALL_IGNORECASE (Lit (ch ">")) r' Hin) in H.
    apply bracket_met in H.
    apply caseless_literal in H0; [|reflexivity]. subst c0.
    apply (tag_starts prev (c1 :: rest)); [| |exact Hno].
    + cbn [starts_in]. destruct (eqc c1 (ch ">")) eqn:Hc; [|reflexivity].
      apply eqc_eq in Hc. subst c1. discriminate.
    + unfold contains_char in *. cbn [existsb]. rewrite H. apply orb_true_r.
Qed.

(** X15: the script and style substitutions of [remove_html_tags] never
    change the text: the tag substitution that runs before them leaves
    no tag, so their patterns, which start with a tag, find nothing.
    [remove_html_tags] is the tag substitution followed by the removal
    of the comment blocks, and what stands between a script or style
    tag and its closing tag stays in the text. *)
Theorem remove_html_tags_keeps_script_content :
  forall (text : str),
    let untagged := sub no_flags tag_pattern (py " ") text in
    search no_flags tag_pattern untagged = None
    /\ sub DOTALL_IGNORECASE script_pattern [] untagged = untagged
    /\ sub DOTALL_IGNORECASE style_pattern [] untagged = untagged
    /\ remove_html_tags text = sub DOTALL css_comment_pattern [] untagged.
Proof.
  intros text untagged.
  assert (Hnone : search no_flags tag_pattern untagged = None)
    by apply untag_leaves_no_tag.
  assert (Hscript : sub DOTALL_IGNORECASE script_pattern [] untagged = untagged).
  { apply (sub_from_implied no_flags DOTALL_IGNORECASE tag_pattern script_pattern);
      [|exact Hnone].
    intros prev s. apply (opening_is_a_tag _ prev s).
    vm_compute. repeat first [left; reflexivity | right]. }
  assert (Hstyle : sub DOTALL_IGNORECASE style_pattern [] untagged = untagged).
  { apply (sub_from_implied no_flags DOTALL_IGNORECASE tag_pattern style_pattern);
      [|exact Hnone].
    intros prev s. apply (opening_is_a_tag _ prev s).
    vm_compute. repeat first [left; reflexivity | right]. }
  repeat split; try assumption.
  unfold remove_html_tags. fold untagged. now rewrite Hscript, Hstyle.
Qed.

End ScriptAndStyle.

(** ** Entities *)

Section Entities.

Context {E : Externals}.

(** X16: a text without an ampersand that is not markup (it lacks [<]
    or lacks [>]) leaves [decode_html_entities] unchanged, without the
    parser being called. *)
Theorem decode_html_entities_keeps_plain_text :
  forall (text : str),
    contains_char (ch "&") text = false ->
    contains_char (ch "<") text = false \/ contains_char (ch ">") text = false ->
    decode_html_entities text = text.
Proof.
  intros text Hamp Hmarkup. unfold decode_html_entities.
  replace (contains_char (ch "<") text && contains_char (ch ">") text) with false
    by (destruct Hmarkup as [-> | ->]; [reflexivity|now rewrite andb_false_r]).
  unfold decode_entities_manually, html_entities. cbn [fold_left fst snd].
  repeat (rewrite (replace_without (ch "&") _ _ text); [|now left|exact Hamp]).
  reflexivity.
Qed.

End Entities.

Lemma decode_html_entities_keeps_plain_text_witness :
  decode_html_entities (py "2 < 3, see you") = py "2 < 3, see you".
Proof.
  apply (@decode_html_entities_keeps_plain_text reference (py "2 < 3, see you")).
  - reflexivity.
  - right. reflexivity.
Defined.

(** ** The body of a message *)

Lemma first_text_part_is_flat (decode : str -> str) (ps : list payload) :
  first_text_part decode (map without_parts ps) = first_text_part decode ps.
Proof.
  induction ps as [|[mime d nested] ps IH]; [reflexivity|].
  cbn [map without_parts first_text_part]. now rewrite IH.
Qed.

(** X17: [extract_body] does not descend into nested parts, although
    its docstring says it recurses: what it returns depends on the body
    data of the payload and on the types and data of its direct parts
    only. *)
Theorem extract_body_ignores_nested_parts :
  forall (decode : str -> str) (mime : str) (d : option str) (ps : list payload),
    extract_body decode (Payload mime d (Some ps))
    = extract_body decode (Payload mime d (Some (map without_parts ps))).
Proof.
  intros decode mime d ps. cbn [extract_body].
  now rewrite first_text_part_is_flat.
Qed.

(** X18: a payload without body data whose text parts (plain or HTML)
    all lack data, at the top level, yields [No content available],
    whatever is nested below. *)
Theorem extract_body_without_text :
  forall (decode : str -> str) (mime : str) (ps : list payload),
    (forall m d nested, List.In (Payload m d nested) ps ->
       (str_eqb m (py "text/plain") || str_eqb m (py "text/html")) = true ->
       truthy d = None) ->
    extract_body decode (Payload mime None (Some ps)) = py "No content available".
Proof.
  intros decode mime ps H. cbn [extract_body truthy].
  replace (first_text_part decode ps) with (@None str); [reflexivity|].
  symmetry. induction ps as [|[m d nested] ps IH]; [reflexivity|].
  cbn [first_text_part].
  assert (IH' : first_text_part decode ps = None).
  { apply IH. intros m' d' n' Hin. apply (H m' d' n'). now right. }
  pose proof (H m d nested (or_introl eq_refl)) as Hd.
  destruct (str_eqb m (py "text/plain")); [now rewrite Hd|].
  destruct (str_eqb m (py "text/html")); [now rewrite Hd|exact IH'].
Qed.

Lemma extract_body_without_text_witness :
  extract_body (fun x => x)
    (Payload (py "multipart/mixed") None
       (Some [Payload (py "multipart/alternative") None
                (Some [Payload (py "text/plain") (Some (py "aGk=")) None]);
              Payload (py "text/html") (Some []) None]))
  = py "No content available".
Proof.
  apply extract_body_without_text.
  intros m d nested [H|[H|[]]] Hm; injection H as <- <- <-;
    [discriminate|reflexivity].
Defined.

(** ** Stages applied twice *)

Section Twice.

Context {E : Externals}.

(** X19: [remove_signatures] is idempotent: applied to its own output it
    changes nothing. *)
Theorem remove_signatures_twice :
  forall (text : str),
    remove_signatures (remove_signatures text) = remove_signatures text.
Proof.
  intros text. unfold remove_signatures at 1.
  apply join_filter_split. intros line Hl.
  apply (split_join_filter (fun l => negb (is_signature l)) text);
    [vm_compute; reflexivity|exact Hl].
Qed.

Lemma run_length_no_double (f : char -> bool) (s : str) :
  no_double f s = true -> (run_length f s <= 1)%nat.
Proof.
  destruct s as [|c s]; [cbn; lia|].
  cbn [no_double run_length]. intros H. apply andb_true_iff in H as [H _].
  destruct (f c); [|lia]. cbn [andb] in H. apply negb_true_iff in H.
  destruct s as [|c' s]; [cbn; lia|].
  cbn [starts_in] in H. cbn [run_length]. rewrite H. lia.
Qed.

(** where no two characters of the set stand side by side, a{2,} has no
    match *)
Lemma no_run_to_collapse fl a repl (s : str) :
  no_double (accepts fl a) s = true ->
  forall prev, sub_from fl [Rep a 2 None true] repl prev s 0 = s.
Proof.
  induction s as [|c s IH]; intros H prev.
  - reflexivity.
  - pose proof (run_length_no_double _ _ H) as Hrun.
    cbn [sub_from match_here]. rewrite rep_greedy_run_length.
    destruct (2 <=? run_length (accepts fl a) (c :: s))%nat eqn:H2;
      [apply Nat.leb_le in H2; lia|].
    now rewrite (IH (no_double_tail _ c s H)).
Qed.

Lemma no_repeat_member (x : char) repl (s : str) :
  no_double (fun c => eqc c x) s = true ->
  sub no_flags [AtLeast 2 (OneOf [Ch x])] repl s = s.
Proof.
  intros H. apply no_run_to_collapse.
  rewrite (no_double_ext _ (fun c => eqc c x)); [exact H|].
  intros c. cbn [accepts existsb item_has lit_eq ignorecase no_flags].
  apply orb_false_r.
Qed.

Lemma no_repeat_literal (x : char) repl (s : str) :
  no_double (fun c => eqc c x) s = true ->
  sub no_flags [AtLeast 2 (Lit x)] repl s = s.
Proof. intros H. now apply no_run_to_collapse. Qed.

(** X20: [clean_punctuation] is idempotent. *)
Theorem clean_punctuation_twice :
  forall (text : str),
    clean_punctuation (clean_punctuation text) = clean_punctuation text.
Proof.
  intros text.
  assert (H1 := clean_punctuation_no_double (ch "!") text).
  assert (H2 := clean_punctuation_no_double (ch "?") text).
  assert (H3 := clean_punctuation_no_double (ch ".") text).
  assert (H4 := clean_punctuation_no_double (ch ",") text).
  cbn [List.In] in H1, H2, H3, H4.
  specialize (H1 ltac:(tauto)). specialize (H2 ltac:(tauto)).
  specialize (H3 ltac:(tauto)). specialize (H4 ltac:(tauto)).
  set (out := clean_punctuation text) in *.
  unfold clean_punctuation at 1.
  rewrite (no_repeat_member (ch "!") _ out H1).
  rewrite (no_repeat_member (ch "?") _ out H2).
  rewrite (no_repeat_member (ch ".") _ out H3).
  apply (no_repeat_literal (ch ",") _ out H4).
Qed.

Lemma single_spaced_no_double (s : str) :
  single_spaced s = no_double (fun c => eqc c SPC) s.
Proof.
  induction s as [|c s IH]; [reflexivity|].
  cbn [single_spaced no_double]. rewrite <- IH.
  destruct s as [|c' s]; [cbn [starts_in]; now rewrite andb_false_r|reflexivity].
Qed.

Lemma blank_line_needs_break prev c (s : str) :
  eqc c NL = false ->
  match_here no_flags [One (Lit NL); Star Space; One (Lit NL)] prev (c :: s) = None.
Proof. intros H. cbn [match_here accepts lit_eq ignorecase no_flags]. now rewrite H. Qed.

Lemma no_blank_line prev c' (s : str) :
  isspace c' = false ->
  match_here no_flags [One (Lit NL); Star Space; One (Lit NL)] prev (NL :: c' :: s)
  = None.
Proof.
  intros H. cbn [match_here accepts lit_eq ignorecase no_flags Star rep].
  rewrite eqc_refl, H. cbn [andb].
  destruct (eqc c' NL) eqn:Hc; [|reflexivity].
  apply eqc_eq in Hc. subst c'. discriminate.
Qed.

(** where every line break is followed by text there is no blank line
    to drop *)
Lemma no_blank_lines_kept (s : str) :
  breaks_before_text s = true ->
  forall prev,
    sub_from no_flags [One (Lit NL); Star Space; One (Lit NL)] [NL] prev s 0 = s.
Proof.
  induction s as [|c s IH]; intros H prev; [reflexivity|].
  cbn [breaks_before_text] in H. apply andb_true_iff in H as [Hc H].
  cbn [sub_from]. destruct (eqc c NL) eqn:Hnl.
  - apply eqc_eq in Hnl. subst c.
    destruct s as [|c' s]; [discriminate|].
    apply negb_true_iff in Hc.
    now rewrite (no_blank_line prev c' s Hc), (IH H).
  - now rewrite (blank_line_needs_break prev c s Hnl), (IH H).
Qed.

Lemma breaks_before_text_line (l rest : str) :
  contains_char NL l = false ->
  breaks_before_text (l ++ rest) = breaks_before_text rest.
Proof.
  unfold contains_char. induction l as [|c l IH]; intros H; [reflexivity|].
  cbn [existsb] in H. apply orb_false_iff in H as [Hc H].
  cbn [app breaks_before_text]. rewrite eqc_sym, Hc. now rewrite (IH H).
Qed.

Lemma strip_head (s : str) :
  match hd_error (strip s) with Some c => isspace c | None => false end = false.
Proof. unfold strip. apply rstrip_head, lstrip_head. Qed.

Lemma join_lines_breaks (ls : list str) :
  (forall l, List.In l ls ->
     contains_char NL l = false /\ l <> []
     /\ match hd_error l with Some c => isspace c | None => false end = false) ->
  breaks_before_text (join_lines ls) = true.
Proof.
  induction ls as [|l ls IH]; intros H; [reflexivity|].
  destruct (H l (or_introl eq_refl)) as (Hl & _ & _).
  destruct ls as [|l' ls].
  - cbn [join_lines]. rewrite <- (app_nil_r l).
    now rewrite breaks_before_text_line.
  - change (join_lines (l :: l' :: ls)) with (l ++ NL :: join_lines (l' :: ls)).
    rewrite breaks_before_text_line by exact Hl.
    cbn [breaks_before_text]. rewrite eqc_refl.
    rewrite IH by (intros x Hx; apply H; now right). rewrite andb_true_r.
    destruct (H l' (or_intror (or_introl eq_refl))) as (_ & Hne & Hhd).
    destruct l' as [|c' l']; [contradiction|].
    cbn [hd_error] in Hhd.
    destruct ls; cbn [join_lines app]; now rewrite Hhd.
Qed.

(** X21: [normalize_whitespace] is idempotent. *)
Theorem normalize_whitespace_twice :
  forall (text : str),
    normalize_whitespace (normalize_whitespace text) = normalize_whitespace text.
Proof.
  intros text.
  assert (Hspaces : no_double (fun c => eqc c SPC) (normalize_whitespace text) = true).
  { unfold normalize_whitespace. apply trimmed_lines_no_double.
    apply sub_no_double; [reflexivity|discriminate|apply spaces_collapsed]. }
  revert Hspaces. unfold normalize_whitespace at 1 3 4.
  set (t := sub no_flags [One (Lit NL); Star Space; One (Lit NL)] [NL] _).
  set (lines := filter (fun l => negb (is_empty l)) (map strip (split_lines t))).
  assert (Hlines : forall x, List.In x lines ->
            trimmed x /\ x <> [] /\ contains_char NL x = false
            /\ match hd_error x with Some c => isspace c | None => false end = false).
  { intros x Hx. apply filter_In in Hx as [Hx Hne].
    apply in_map_iff in Hx as (l & <- & Hl). repeat split.
    - apply strip_trimmed.
    - intros Hnil. rewrite Hnil in Hne. discriminate.
    - apply strip_lacks. now apply split_lines_no_newline with (s := t).
    - apply strip_head. }
  clearbody lines. clear t. intros Hspaces.
  destruct lines as [|l ls]; [vm_compute; reflexivity|].
  set (out := join_lines (l :: ls)) in *.
  unfold normalize_whitespace. unfold sub at 2.
  rewrite (single_spaces_kept out) by (now rewrite single_spaced_no_double).
  unfold sub. rewrite (no_blank_lines_kept out).
  2:{ apply join_lines_breaks. intros x Hx.
      destruct (Hlines x Hx) as (_ & Hne & Hnl & Hhd). auto. }
  unfold out. rewrite split_join_lines;
    [|discriminate|intros x Hx; now apply Hlines].
  rewrite (map_ext_in strip (fun x => x)) by (intros x Hx; now apply Hlines).
  rewrite map_id. rewrite filter_keeps_all; [reflexivity|].
  intros x Hx. destruct (Hlines x Hx) as (_ & Hne & _).
  destruct x; [contradiction|reflexivity].
Qed.

End Twice.

(** ** [clean_text] applied again *)

Section Settled.

Context {E : Externals}.

(** where no two characters of a set stand side by side, a+ replaced by
    the one character of the set changes nothing *)
Lemma single_runs_kept fl a (x : char) (s : str) :
  (forall c, accepts fl a c = true -> c = x) ->
  no_double (accepts fl a) s = true ->
  forall prev, sub_from fl [Plus a] [x] prev s 0 = s.
Proof.
  intros Hx. induction s as [|c s IH]; intros H prev; [reflexivity|].
  pose proof (run_length_no_double _ _ H) as Hrun.
  pose proof (no_double_tail _ c s H) as Hs.
  cbn [sub_from match_here Plus]. rewrite rep_greedy_run_length.
  cbn [run_length] in *. destruct (accepts fl a c) eqn:Hc.
  - assert (H0 : run_length (accepts fl a) s = O) by lia.
    rewrite H0. cbn [Nat.leb app]. rewrite (Hx c Hc). f_equal. now apply IH.
  - cbn [Nat.leb]. f_equal. now apply IH.
Qed.

Lemma printable_no_return (s : str) :
  forallb printable s = true -> existsb (accepts no_flags (Lit CR)) s = false.
Proof.
  induction s as [|c s IH]; [reflexivity|]. cbn [forallb existsb]. intros H.
  apply andb_true_iff in H as [Hc H]. rewrite (IH H), orb_false_r.
  cbn [accepts lit_eq ignorecase no_flags].
  destruct (eqc c CR) eqn:Hcr; [|reflexivity].
  apply eqc_eq in Hcr. subst c. discriminate.
Qed.

Lemma printable_all_kept (s : str) :
  forallb printable s = true ->
  existsb (accepts no_flags (NoneOf [Range 32 126; Ch NL; Ch TAB])) s = false.
Proof.
  induction s as [|c s IH]; [reflexivity|]. cbn [forallb existsb]. intros H.
  apply andb_true_iff in H as [Hc H]. rewrite (IH H), orb_false_r.
  cbn [accepts existsb item_has lit_eq ignorecase no_flags].
  unfold printable in Hc. apply negb_false_iff.
  now rewrite orb_false_r, orb_assoc.
Qed.

(** on printable text the two carriage-return substitutions and the
    removal of the other characters do nothing *)
Lemma clean_text_of_printable (s : str) :
  forallb printable s = true ->
  clean_text s
  = strip (sub no_flags [Plus (Lit SPC)] (py " ")
             (sub no_flags [Plus (Lit NL)] [NL] s)).
Proof.
  intros Hp. unfold clean_text. destruct s as [|c s]; [reflexivity|].
  cbn [is_empty]. set (t := c :: s) in *.
  unfold sub at 5.
  rewrite (sub_without no_flags (Lit CR) [One (Lit CR); One (Lit NL)] [NL] t);
    [|now left|now apply printable_no_return].
  unfold sub at 4.
  rewrite (sub_without no_flags (Lit CR) [One (Lit CR)] [NL] t);
    [|now left|now apply printable_no_return].
  unfold sub at 2.
  rewrite (sub_without no_flags (NoneOf [Range 32 126; Ch NL; Ch TAB]));
    [reflexivity|now left|].
  apply printable_all_kept. now apply sub_forall.
Qed.

Lemma clean_text_chars (text : str) : forallb printable (clean_text text) = true.
Proof.
  unfold clean_text. destruct (is_empty text); [reflexivity|].
  apply strip_forall, sub_forall; [reflexivity|].
  apply sub_from_rejected with (a := NoneOf [Range 32 126; Ch NL; Ch TAB]);
    [apply one_miss|apply one_positive|apply outside_printable_rejected|reflexivity].
Qed.

Lemma clean_text_spaces (text : str) :
  no_double (fun c => eqc c SPC) (clean_text text) = true.
Proof.
  unfold clean_text. destruct (is_empty text); [reflexivity|].
  apply strip_no_double, spaces_collapsed.
Qed.

(** where nothing is left to replace, only the trimming remains *)
Lemma clean_text_only_trims (s : str) :
  forallb printable s = true ->
  no_double (fun c => eqc c NL) s = true ->
  no_double (fun c => eqc c SPC) s = true ->
  clean_text s = strip s.
Proof.
  intros Hp Hnl Hsp.
  rewrite (clean_text_of_printable s Hp).
  unfold sub at 2.
  rewrite (single_runs_kept no_flags (Lit NL) NL s);
    [|intros c Hc; now apply eqc_eq|exact Hnl].
  unfold sub.
  rewrite (single_runs_kept no_flags (Lit SPC) SPC s);
    [reflexivity|intros c Hc; now apply eqc_eq|exact Hsp].
Qed.

(** X22: a text that is already as [clean_text] leaves texts (printable
    characters, line feeds and tabs only, no two line feeds and no two
    spaces side by side, trimmed) is returned unchanged. *)
Theorem clean_text_keeps_settled_text :
  forall (text : str), settled text -> clean_text text = text.
Proof.
  intros text (Hp & Hnl & Hsp & Htrim).
  rewrite (clean_text_only_trims text Hp Hnl Hsp). exact Htrim.
Qed.

(** the second pass brings the text to that shape *)
Lemma second_pass_settles (text : str) : settled (clean_text (clean_text text)).
Proof.
  repeat split.
  - apply clean_text_chars.
  - set (a := clean_text text).
    rewrite (clean_text_of_printable a (clean_text_chars text)).
    apply strip_no_double.
    apply sub_no_double; [reflexivity|discriminate|].
    rewrite <- (no_double_ext (accepts no_flags (Lit NL))).
    + apply (collapse_no_double no_flags (Lit NL) NL 1); [lia|now left].
    + intros c. reflexivity.
  - apply clean_text_spaces.
  - apply clean_text_is_trimmed.
Qed.

(** X23: [clean_text] is not idempotent, but a second pass settles the
    text: a third pass never changes anything, whereas the second one
    does change the text in which a control character stood between two
    line breaks. *)
Theorem clean_text_settles_in_two_passes :
  (forall (text : str),
      clean_text (clean_text (clean_text text)) = clean_text (clean_text text))
  /\ clean_text hidden_between_breaks = py "a" ++ [NL; NL] ++ py "b"
  /\ clean_text (clean_text hidden_between_breaks) = py "a" ++ [NL] ++ py "b".
Proof.
  split; [|split; vm_compute; reflexivity].
  intros text.
  destruct (second_pass_settles text) as (Hp & Hnl & Hsp & Htrim).
  now rewrite clean_text_only_trims.
Qed.

End Settled.

Lemma clean_text_keeps_settled_text_witness :
  settled (py "Dear Jane," ++ [NL] ++ py "see you")
  /\ @clean_text reference (py "Dear Jane," ++ [NL] ++ py "see you")
     = py "Dear Jane," ++ [NL] ++ py "see you".
Proof.
  assert (H : settled (py "Dear Jane," ++ [NL] ++ py "see you")).
  { repeat split; vm_compute; reflexivity. }
  split; [exact H|].
  exact (@clean_text_keeps_settled_text reference _ H).
Defined.

(** ** Quotes and dashes *)

Lemma replace_char_map (x y : char) (s : str) :
  replace [x] [y] s = map (fun c => if eqc x c then y else c) s.
Proof.
  unfold replace. induction s as [|c s IH]; [reflexivity|].
  cbn [replace_go starts_with List.length Nat.sub map app].
  rewrite andb_true_r. destruct (eqc x c); now rewrite IH.
Qed.

(** a text that does not hold [old] is left as it is *)
Lemma replace_absent (old new s : str) :
  contains old s = false -> replace old new s = s.
Proof.
  destruct old as [|o old]; [destruct s; discriminate|].
  unfold replace. induction s as [|c s IH]; intros H; [reflexivity|].
  cbn [contains] in H. apply orb_false_iff in H as [Hs H].
  cbn [replace_go]. rewrite Hs. now rewrite (IH H).
Qed.

Section Dashes.

Context {E : Externals}.

(** the two replacements of the first quote line put a double quote
    where a double quote stood *)
Lemma quote_for_quote (s : str) : replace [DQ] [DQ] s = s.
Proof.
  rewrite replace_char_map. rewrite <- (map_id s) at 2.
  apply map_ext. intros c. destruct (eqc DQ c) eqn:Hc; [|reflexivity].
  now apply eqc_eq in Hc.
Qed.

Lemma dash_replacements (s : str) :
  replace [EN_DASH] (py "-") (replace [EM_DASH] (py "-") s) = dashes_to_hyphens s.
Proof.
  change (py "-") with [ch "-"]. rewrite !replace_char_map, map_map.
  apply map_ext. intros c. rewrite (eqc_sym c EM_DASH), (eqc_sym c EN_DASH).
  destruct (eqc EM_DASH c); [reflexivity|].
  cbn [orb]. reflexivity.
Qed.

Lemma dashes_to_hyphens_lacks (x : char) (s : str) :
  x = EM_DASH \/ x = EN_DASH -> contains_char x (dashes_to_hyphens s) = false.
Proof.
  intros Hx. unfold contains_char, dashes_to_hyphens.
  induction s as [|c s IH]; [reflexivity|].
  cbn [map existsb]. rewrite IH, orb_false_r.
  destruct (eqc c EM_DASH) eqn:Hem; cbn [orb].
  - destruct Hx as [->| ->]; reflexivity.
  - destruct (eqc c EN_DASH) eqn:Hen.
    + destruct Hx as [->| ->]; reflexivity.
    + destruct Hx as [->| ->]; now rewrite eqc_sym.
Qed.

(** X24: the text [normalize_unicode] returns holds no em dash and no
    en dash, whatever the input. *)
Theorem normalize_unicode_leaves_no_dash :
  forall (text : str),
    contains_char EM_DASH (normalize_unicode text) = false
    /\ contains_char EN_DASH (normalize_unicode text) = false.
Proof.
  intros text. unfold normalize_unicode.
  change (replace [8211] (py "-") (replace [8212] (py "-") ?t))
    with (replace [EN_DASH] (py "-") (replace [EM_DASH] (py "-") t)).
  rewrite dash_replacements.
  split; apply dashes_to_hyphens_lacks; [now left|now right].
Qed.

(** X25: the quote lines of [normalize_unicode] replace no typographic
    quote.  Unless the normalized text holds the fifteen characters the
    second of them looks for, the result is the NFKC form of the text
    with its em and en dashes turned into hyphens, every other character
    (the curly quotes too) where it stood. *)
Theorem normalize_unicode_changes_dashes_only :
  forall (text : str),
    contains quote_line_needle (nfkc text) = false ->
    normalize_unicode text = dashes_to_hyphens (nfkc text).
Proof.
  intros text Hneedle. unfold normalize_unicode.
  rewrite !quote_for_quote.
  change (py ", " ++ [DQ; SQ; DQ] ++ py ").replace(") with quote_line_needle.
  rewrite (replace_absent quote_line_needle [SQ] (nfkc text) Hneedle).
  apply dash_replacements.
Qed.

End Dashes.

Lemma normalize_unicode_changes_dashes_only_witness :
  @normalize_unicode reference ([8220] ++ py "Hi" ++ [8221; EM_DASH; 8216] ++ py "ok" ++ [8217])
  = [8220] ++ py "Hi" ++ [8221] ++ py "-" ++ [8216] ++ py "ok" ++ [8217].
Proof.
  apply (@normalize_unicode_changes_dashes_only reference
           ([8220] ++ py "Hi" ++ [8221; EM_DASH; 8216] ++ py "ok" ++ [8217])).
  vm_compute. reflexivity.
Defined.
